(** * IoPet: conversation log, backend dispatch and confirmation protocol

    A shallow embedding of the turn-taking core of [io_pet.py] and of the
    speech fallback chain of [voice.py].

    Modelling conventions.
    - A Python [str] is the list of its code points ([N]); slicing and
      [strip] therefore count code points, as Python does.
    - The history file is modelled at the level of decoded text: the file is
      missing, cannot be read (which includes bytes that are not UTF-8), or
      holds a text; opening it for writing either succeeds or raises (and
      [save_history] swallows the exception).  Writing goes through the
      UTF-8 encoder chunk by chunk: a chunk that holds a surrogate raises,
      and the file keeps what was written before it.  The limits of the
      interpreter (recursion depth, memory) are not modelled.
    - [json.dump]/[json.load] are library code; [Json] models the chunks and
      the format written by [json.dump(..., ensure_ascii=False, indent=2)]
      and the grammar accepted by [json.load], with the limit of 4300 digits
      on an integer literal.  A number is carried as its literal: how
      [json.dump] renders a number again is not modelled, and no property
      below is about a log that holds numbers.
    - Every HTTP call is an outcome chosen by the environment: the call
      raises, or returns a status with a body that may fail to decode.
    - A Qt signal emitted by a worker is delivered to its slot at once; a
      [QLineEdit] keeps at most 32767 UTF-16 code units of a text set. *)

From Stdlib Require Import Ascii String List NArith ZArith Bool Arith Lia.
Import ListNotations.
Local Open Scope N_scope.
Local Open Scope list_scope.
Set Warnings "-register-all".

(** ** Python strings and containers *)
Module Py.

Definition str := list N.

Definition lit (s : string) : str := map N_of_ascii (list_ascii_of_string s).
Arguments lit s%_string.

Fixpoint eqb_str (a b : str) : bool :=
  match a, b with
  | [], [] => true
  | x :: a', y :: b' => (x =? y) && eqb_str a' b'
  | _, _ => false
  end.

(** [bool(s)] for a string or any sequence. *)
Definition truthy {A} (l : list A) : bool :=
  match l with [] => false | _ :: _ => true end.

(** [str.isspace] on one code point. *)
Definition isspace (c : N) : bool :=
  ((9 <=? c) && (c <=? 13)) || ((28 <=? c) && (c <=? 32))
  || (c =? 133) || (c =? 160) || (c =? 5760)
  || ((8192 <=? c) && (c <=? 8202))
  || (c =? 8232) || (c =? 8233) || (c =? 8239) || (c =? 8287) || (c =? 12288).

Fixpoint lstrip (s : str) : str :=
  match s with
  | c :: r => if isspace c then lstrip r else s
  | [] => []
  end.

Definition rstrip (s : str) : str := rev (lstrip (rev s)).

Definition strip (s : str) : str := rstrip (lstrip s).

(** [l[:n]] *)
Definition slice_to {A} (n : nat) (l : list A) : list A := firstn n l.

(** [l[-n:]] *)
Definition slice_last {A} (n : nat) (l : list A) : list A :=
  skipn (length l - n) l.

(** [s.encode("utf-8")] succeeds: UTF-8 has no encoding for the surrogate
    code points U+D800..U+DFFF, which a Python [str] may hold. *)
Definition utf8_ok (c : N) : bool := negb ((55296 <=? c) && (c <=? 57343)).

Definition encodable (s : str) : bool := forallb utf8_ok s.

(** A [dict] with string keys, in insertion order. *)
Definition dict (V : Type) := list (str * V).

Fixpoint get {V} (k : str) (d : dict V) : option V :=
  match d with
  | [] => None
  | (k', v) :: d' => if eqb_str k k' then Some v else get k d'
  end.

(** [d[k] = v]: an existing key keeps its position. *)
Fixpoint set {V} (k : str) (v : V) (d : dict V) : dict V :=
  match d with
  | [] => [(k, v)]
  | (k', v') :: d' =>
      if eqb_str k k' then (k, v) :: d' else (k', v') :: set k v d'
  end.

(** [d.get(k, default)] *)
Definition get_or {V} (k : str) (default : V) (d : dict V) : V :=
  match get k d with Some v => v | None => default end.

End Py.
Import Py.

(** ** The JSON text format of the history file *)
Module Json.

(** A number is kept as the literal it was read from.  Python converts it
    to an [int] or a [float] and [json.dump] renders that value again
    ([1e2] comes back as [100.0]); that rendering is not modelled, so what
    is written for a number is only right for a literal in canonical form. *)
Inductive value :=
| JNull
| JBool (b : bool)
| JNum (literal : str)
| JStr (s : str)
| JArr (items : list value)
| JObj (fields : dict value).

(** Induction on a value, with the property available for the items of a
    list and the members of an object. *)
Section ValueInduction.
Variable P : value -> Prop.
Hypothesis Hnull : P JNull.
Hypothesis Hbool : forall b, P (JBool b).
Hypothesis Hnum : forall l, P (JNum l).
Hypothesis Hstr : forall s, P (JStr s).
Hypothesis Harr : forall items, Forall P items -> P (JArr items).
Hypothesis Hobj : forall fields, Forall (fun kv => P (snd kv)) fields -> P (JObj fields).

Fixpoint value_induction (v : value) : P v :=
  match v with
  | JNull => Hnull
  | JBool b => Hbool b
  | JNum l => Hnum l
  | JStr s => Hstr s
  | JArr items =>
      Harr items
        ((fix all (l : list value) : Forall P l :=
            match l with
            | [] => Forall_nil P
            | x :: r => Forall_cons x (value_induction x) (all r)
            end) items)
  | JObj fields =>
      Hobj fields
        ((fix all (l : dict value) : Forall (fun kv => P (snd kv)) l :=
            match l with
            | [] => Forall_nil _
            | kv :: r => Forall_cons kv (value_induction (snd kv)) (all r)
            end) fields)
  end.

End ValueInduction.

(** *** Encoder: [json.dump(v, f, ensure_ascii=False, indent=2)] *)

Definition hex_digit (n : N) : N := if n <? 10 then 48 + n else 87 + n.

(** ESCAPE_DCT: the quote, the backslash and the control characters. *)
Definition escape_char (c : N) : str :=
  if c =? 34 then [92; 34]
  else if c =? 92 then [92; 92]
  else if c =? 10 then [92; 110]
  else if c =? 13 then [92; 114]
  else if c =? 9 then [92; 116]
  else if c =? 8 then [92; 98]
  else if c =? 12 then [92; 102]
  else if c <? 32 then [92; 117; 48; 48; hex_digit (c / 16); hex_digit (c mod 16)]
  else [c].

Definition encode_basestring (s : str) : str :=
  34 :: flat_map escape_char s ++ [34].

(** ['\n' + ' ' * (indent * level)] with [indent = 2]. *)
Definition newline_indent (level : nat) : str := 10 :: repeat 32 (2 * level).

Fixpoint encode (level : nat) (v : value) : str :=
  match v with
  | JNull => lit "null"
  | JBool true => lit "true"
  | JBool false => lit "false"
  | JNum l => l
  | JStr s => encode_basestring s
  | JArr [] => lit "[]"
  | JArr (x :: xs) =>
      [91] ++ newline_indent (S level) ++ encode (S level) x
      ++ flat_map (fun y => [44] ++ newline_indent (S level) ++ encode (S level) y) xs
      ++ newline_indent level ++ [93]
  | JObj [] => lit "{}"
  | JObj ((k, x) :: fs) =>
      [123] ++ newline_indent (S level)
      ++ encode_basestring k ++ [58; 32] ++ encode (S level) x
      ++ flat_map (fun kv => match kv with
                             | (k', y) => [44] ++ newline_indent (S level)
                                          ++ encode_basestring k' ++ [58; 32]
                                          ++ encode (S level) y
                             end) fs
      ++ newline_indent level ++ [125]
  end.

Definition dumps (v : value) : str := encode 0 v.

(** [json.dump] does not build that text in one piece: it hands the chunks
    yielded by [_make_iterencode] to [fp.write], one call each.  A string or
    a constant is one chunk (in a list, together with the separator before
    it); a container yields its brackets, separators, keys and members one
    after the other. *)
Definition atom (v : value) : option str :=
  match v with
  | JNull => Some (lit "null")
  | JBool true => Some (lit "true")
  | JBool false => Some (lit "false")
  | JNum l => Some l
  | JStr s => Some (encode_basestring s)
  | JArr _ => None
  | JObj _ => None
  end.

Fixpoint iterencode (level : nat) (v : value) : list str :=
  match v with
  | JNull => [lit "null"]
  | JBool true => [lit "true"]
  | JBool false => [lit "false"]
  | JNum l => [l]
  | JStr s => [encode_basestring s]
  | JArr [] => [lit "[]"]
  | JArr (x :: xs) =>
      (match atom x with
       | Some text => [[91] ++ newline_indent (S level) ++ text]
       | None => ([91] ++ newline_indent (S level)) :: iterencode (S level) x
       end)
      ++ flat_map (fun y => match atom y with
                            | Some text => [[44] ++ newline_indent (S level) ++ text]
                            | None => ([44] ++ newline_indent (S level))
                                      :: iterencode (S level) y
                            end) xs
      ++ [newline_indent level; [93]]
  | JObj [] => [lit "{}"]
  | JObj ((k, x) :: fs) =>
      [[123]; newline_indent (S level); encode_basestring k; [58; 32]]
      ++ iterencode (S level) x
      ++ flat_map (fun kv => match kv with
                             | (k', y) => [[44] ++ newline_indent (S level);
                                           encode_basestring k'; [58; 32]]
                                          ++ iterencode (S level) y
                             end) fs
      ++ [newline_indent level; [125]]
  end.

(** [for chunk in iterable: fp.write(chunk)] on a file opened with
    [encoding="utf-8"]: a chunk that holds a surrogate raises
    [UnicodeEncodeError] before any of it is written; the chunks written
    before it stay in the file. *)
Fixpoint write_chunks (chunks : list str) : str :=
  match chunks with
  | [] => []
  | c :: rest => if encodable c then c ++ write_chunks rest else []
  end.

(** What [json.dump(v, f, ensure_ascii=False, indent=2)] leaves in the file. *)
Definition dump (v : value) : str := write_chunks (iterencode 0 v).

(** *** Decoder: [json.load(f)] *)

Definition is_ws (c : N) : bool :=
  (c =? 32) || (c =? 9) || (c =? 10) || (c =? 13).

Fixpoint skip_ws (s : str) : str :=
  match s with
  | c :: r => if is_ws c then skip_ws r else s
  | [] => []
  end.

Definition is_digit (c : N) : bool := (48 <=? c) && (c <=? 57).

Definition hex_val (c : N) : option N :=
  if is_digit c then Some (c - 48)
  else if (97 <=? c) && (c <=? 102) then Some (c - 87)
  else if (65 <=? c) && (c <=? 70) then Some (c - 55)
  else None.

Definition hex4 (a b c d : N) : option N :=
  match hex_val a, hex_val b, hex_val c, hex_val d with
  | Some x, Some y, Some z, Some w => Some (((x * 16 + y) * 16 + z) * 16 + w)
  | _, _, _, _ => None
  end.

(** BACKSLASH: the one-letter escapes. *)
Definition backslash (c : N) : option N :=
  if c =? 34 then Some 34
  else if c =? 92 then Some 92
  else if c =? 47 then Some 47
  else if c =? 98 then Some 8
  else if c =? 102 then Some 12
  else if c =? 110 then Some 10
  else if c =? 114 then Some 13
  else if c =? 116 then Some 9
  else None.

Definition is_high_surrogate (u : N) : bool := (55296 <=? u) && (u <=? 56319).
Definition is_low_surrogate (u : N) : bool := (56320 <=? u) && (u <=? 57343).

Definition join_surrogates (u u2 : N) : N :=
  65536 + N.lor (N.shiftl (u - 55296) 10) (u2 - 56320).

Definition push (c : N) (r : option (str * str)) : option (str * str) :=
  match r with
  | Some (t, rest) => Some (c :: t, rest)
  | None => None
  end.

(** [scanstring(s, end, strict=True)]: [s] starts just after the opening
    quote; the result is the decoded string and the text after the closing
    quote. *)
Fixpoint scanstring (s : str) : option (str * str) :=
  match s with
  | [] => None
  | c :: r =>
      if c =? 34 then Some ([], r)
      else if c =? 92 then
        match r with
        | [] => None
        | e :: r1 =>
            if e =? 117 then
              match r1 with
              | h1 :: h2 :: h3 :: h4 :: r2 =>
                  match hex4 h1 h2 h3 h4 with
                  | None => None
                  | Some uni =>
                      match r2 with
                      | b1 :: b2 :: r3 =>
                          if is_high_surrogate uni && (b1 =? 92) && (b2 =? 117) then
                            match r3 with
                            | g1 :: g2 :: g3 :: g4 :: r4 =>
                                match hex4 g1 g2 g3 g4 with
                                | None => None
                                | Some uni2 =>
                                    if is_low_surrogate uni2
                                    then push (join_surrogates uni uni2) (scanstring r4)
                                    else push uni (scanstring r2)
                                end
                            | _ => None
                            end
                          else push uni (scanstring r2)
                      | _ => push uni (scanstring r2)
                      end
                  end
              | _ => None
              end
            else
              match backslash e with
              | Some ch => push ch (scanstring r1)
              | None => None
              end
        end
      else if c <? 32 then None
      else push c (scanstring r)
  end.

Fixpoint starts_with (p s : str) : bool :=
  match p, s with
  | [], _ => true
  | x :: p', y :: s' => (x =? y) && starts_with p' s'
  | _ :: _, [] => false
  end.

Fixpoint span_digits (s : str) : str * str :=
  match s with
  | c :: r => if is_digit c then let (d, rest) := span_digits r in (c :: d, rest)
              else ([], s)
  | [] => ([], [])
  end.

(** The integer part: [0], or a non-zero digit followed by digits. *)
Definition match_int (s : str) : option (str * str) :=
  match s with
  | c :: r =>
      if c =? 48 then Some ([48], r)
      else if is_digit c then let (d, rest) := span_digits r in Some (c :: d, rest)
      else None
  | [] => None
  end.

(** A fraction [.d+], when present. *)
Definition match_frac (s : str) : str * str :=
  match s with
  | dot :: c :: r =>
      if (dot =? 46) && is_digit c
      then let (d, rest) := span_digits r in (dot :: c :: d, rest)
      else ([], s)
  | _ => ([], s)
  end.

(** An exponent [[eE][-+]?d+], when present. *)
Definition match_exp (s : str) : str * str :=
  match s with
  | e :: r =>
      if (e =? 101) || (e =? 69) then
        match r with
        | sg :: r' =>
            if (sg =? 45) || (sg =? 43) then
              match span_digits r' with
              | ([], _) => ([], s)
              | (d, rest) => (e :: sg :: d, rest)
              end
            else
              match span_digits r with
              | ([], _) => ([], s)
              | (d, rest) => (e :: d, rest)
              end
        | [] => ([], s)
        end
      else ([], s)
  | [] => ([], s)
  end.

(** [sys.int_info.default_max_str_digits]: [int()] refuses a longer literal
    with [ValueError]. *)
Definition MAX_STR_DIGITS : nat := 4300.

Definition digits (literal : str) : nat := length (filter is_digit literal).

(** A number; without fraction and exponent it is converted by [int()]. *)
Definition match_number (s : str) : option (str * str) :=
  let body :=
    match s with
    | c :: r => if c =? 45 then option_map (fun p => (c :: fst p, snd p)) (match_int r)
                else match_int s
    | [] => None
    end in
  match body with
  | None => None
  | Some (i, s1) =>
      let (f, s2) := match_frac s1 in
      let (x, s3) := match_exp s2 in
      if negb (truthy f) && negb (truthy x) && (MAX_STR_DIGITS <? digits i)%nat
      then None
      else Some (i ++ f ++ x, s3)
  end.

Definition scan_constant (s : str) : option (value * str) :=
  if starts_with (lit "null") s then Some (JNull, skipn 4 s)
  else if starts_with (lit "true") s then Some (JBool true, skipn 4 s)
  else if starts_with (lit "false") s then Some (JBool false, skipn 5 s)
  else if starts_with (lit "NaN") s then Some (JNum (lit "NaN"), skipn 3 s)
  else if starts_with (lit "Infinity") s then Some (JNum (lit "Infinity"), skipn 8 s)
  else if starts_with (lit "-Infinity") s then Some (JNum (lit "-Infinity"), skipn 9 s)
  else match match_number s with
       | Some (l, rest) => Some (JNum l, rest)
       | None => None
       end.

(** [scan_once], [JSONArray] and [JSONObject].  The fuel bounds the number of
    nested calls; [loads] supplies more than a text of its length can use
    (see [scan_once_fuel]). *)
Fixpoint scan_once (fuel : nat) (s : str) {struct fuel} : option (value * str) :=
  match fuel with
  | O => None
  | S n =>
      match s with
      | [] => None
      | c :: r =>
          if c =? 34 then
            match scanstring r with
            | Some (t, rest) => Some (JStr t, rest)
            | None => None
            end
          else if c =? 123 then
            match skip_ws r with
            | d :: r' =>
                if d =? 125 then Some (JObj [], r')
                else if d =? 34 then object_pairs n r' []
                else None
            | [] => None
            end
          else if c =? 91 then
            match skip_ws r with
            | d :: r' =>
                if d =? 93 then Some (JArr [], r')
                else array_items n (d :: r') []
            | [] => None
            end
          else scan_constant s
      end
  end

with array_items (fuel : nat) (s : str) (acc : list value) {struct fuel}
  : option (value * str) :=
  match fuel with
  | O => None
  | S n =>
      match scan_once n s with
      | None => None
      | Some (v, s1) =>
          match skip_ws s1 with
          | c :: s2 =>
              if c =? 93 then Some (JArr (acc ++ [v]), s2)
              else if c =? 44 then array_items n (skip_ws s2) (acc ++ [v])
              else None
          | [] => None
          end
      end
  end

with object_pairs (fuel : nat) (s : str) (acc : dict value) {struct fuel}
  : option (value * str) :=
  match fuel with
  | O => None
  | S n =>
      match scanstring s with
      | None => None
      | Some (key, s1) =>
          match skip_ws s1 with
          | c :: s2 =>
              if c =? 58 then
                match scan_once n (skip_ws s2) with
                | None => None
                | Some (v, s3) =>
                    match skip_ws s3 with
                    | d :: s4 =>
                        if d =? 125 then Some (JObj (set key v acc), s4)
                        else if d =? 44 then
                          match skip_ws s4 with
                          | q :: s5 =>
                              if q =? 34 then object_pairs n s5 (set key v acc)
                              else None
                          | [] => None
                          end
                        else None
                    | [] => None
                    end
                end
              else None
          | [] => None
          end
      end
  end.

(** [JSONDecoder.decode]: one value between optional white space, and nothing
    after it. *)
Definition loads (s : str) : option value :=
  match scan_once (S (2 * length s)) (skip_ws s) with
  | Some (v, rest) =>
      match skip_ws rest with
      | [] => Some v
      | _ :: _ => None
      end
  | None => None
  end.

End Json.
Import Json.

(** ** The conversation log on disk ([load_history], [save_history]) *)
Module Store.

Inductive file_state :=
| Missing                 (* os.path.exists(HISTORY_FILE) is false *)
| Unreadable              (* the file exists; open or read raises *)
| Content (text : str).

Record FS := mkFS {
  history_file : file_state;
  writable : bool           (* open(HISTORY_FILE, "w") succeeds *)
}.

Definition load_history (fs : FS) : value :=
  match history_file fs with
  | Missing => JArr []
  | Unreadable => JArr []
  | Content text =>
      match loads text with
      | Some v => v
      | None => JArr []
      end
  end.

(** [open(..., "w")] empties the file before [json.dump] runs; whether
    [json.dump] returns or raises, the file is closed with what was written
    and the exception is swallowed. *)
Definition save_history (history : value) (fs : FS) : FS :=
  if writable fs
  then {| history_file := Content (dump history); writable := true |}
  else fs.

Record Turn := mkTurn { time : str; user : str; ai : str }.

(** The dict literal [{"time": ..., "user": ..., "ai": ...}]. *)
Definition turn_json (t : Turn) : value :=
  JObj [(lit "time", JStr (time t)); (lit "user", JStr (user t)); (lit "ai", JStr (ai t))].

Definition turns_json (l : list Turn) : value := JArr (map turn_json l).

(** The three texts of a turn can be encoded as UTF-8. *)
Definition storable_turn (t : Turn) : bool :=
  encodable (time t) && encodable (user t) && encodable (ai t).

Definition storable (l : list Turn) : bool := forallb storable_turn l.

Definition HISTORY_CAP : nat := 100.

(** The block of [_call_llm] that records a turn: load, append, keep the
    last 100, save.  [None] is the [AttributeError] raised by [append] when
    the loaded value is not a list. *)
Definition record_turn (t : Turn) (fs : FS) : option FS :=
  match load_history fs with
  | JArr history =>
      let history := history ++ [turn_json t] in
      let history :=
        if (HISTORY_CAP <? length history)%nat
        then slice_last HISTORY_CAP history else history in
      Some (save_history (JArr history) fs)
  | _ => None
  end.

(** A sequence of appends, oldest first. *)
Fixpoint record_turns (ts : list Turn) (fs : FS) : option FS :=
  match ts with
  | [] => Some fs
  | t :: ts' =>
      match record_turn t fs with
      | Some fs' => record_turns ts' fs'
      | None => None
      end
  end.

(** The list kept by [record_turn]. *)
Definition capped {A} (l : list A) : list A :=
  if (HISTORY_CAP <? length l)%nat then slice_last HISTORY_CAP l else l.

(** The text written for the items of a log after the first one. *)
Definition more_items (l : list Turn) : str :=
  flat_map (fun y => [44] ++ newline_indent 1 ++ encode 1 y) (map turn_json l).

(** The chunks handed to [write] for those items. *)
Definition more_chunks (l : list Turn) : list str :=
  flat_map (fun t => ([44] ++ newline_indent 1) :: iterencode 1 (turn_json t)) l.

(** [HistoryWindow._clear_history] *)
Definition _clear_history (fs : FS) : FS := save_history (JArr []) fs.

End Store.
Import Store.

(** ** Fixed texts of the user interface *)
Module Text.

Definition MSG_WELCOME : str := [28857; 20987; 25105; 24320; 22987; 32842; 22825; 65281].
Definition MSG_THINKING : str := [24605; 32771; 20013] ++ lit "...".
Definition MSG_TRANSCRIBING : str := [27491; 22312; 36716; 24405] ++ lit "...".
Definition MSG_RECORDING : str := [127908; 32; 27491; 22312; 24405; 38899] ++ lit "...".
Definition MSG_NOT_HEARD : str :=
  [27809; 21548; 28165; 65292; 20877; 35828; 19968; 27425; 65311].
(** "cannot connect / make sure the service is running" *)
Definition MSG_UNREACHABLE : str :=
  [26080; 27861; 36830; 25509; 10; 35831; 30830; 20445; 26381; 21153; 27491;
   22312; 36816; 34892].
(** "hmm... I don't know what to say" *)
Definition MSG_SPEECHLESS : str :=
  [21999] ++ lit "..." ++ [25105; 19981; 30693; 36947; 35813; 35828; 20160; 20040].
Definition MSG_CANCELLED : str := lit "[Agent] " ++ [24050; 21462; 28040; 25191; 34892].
Definition MSG_EXEC_DONE : str := lit "[Agent] " ++ [25191; 34892; 23436; 25104; 58; 10].
Definition MSG_EXEC_FAILED : str := [25191; 34892; 22833; 36133].
Definition MSG_EXEC_ERROR : str := [25191; 34892; 20986; 38169; 58; 32].
Definition MSG_NO_OUTPUT : str := [26080; 36755; 20986].
Definition SAY_EXEC_DONE : str := [25191; 34892; 23436; 25104].
Definition SAY_CONFIRM : str :=
  [25105; 24819; 25191; 34892; 19968; 20123; 20195; 30721; 65292; 35831; 30830; 35748].
Definition PREVIEW_HEAD : str :=
  [10; 10; 128203; 32; 24453; 25191; 34892; 20195; 30721; 58; 10].
Definition CONTEXT_HEAD : str := [10; 24403; 21069; 29366; 24577; 65306].
Definition USER_HEAD : str := [10; 10; 29992; 25143; 58; 32].
Definition SYSTEM_PROMPT_HEAD : str :=
  [20320; 26159; 21487; 29233; 30340; 26700; 38754; 23456; 29289; 21161;
   25163; 73; 111; 65292; 36830; 25509; 30528; 76; 111; 99; 97; 108; 65; 103;
   101; 110; 116; 31995; 32479; 12290; 10; 20320; 30340; 33021; 21147; 65306;
   27983; 35272; 22120; 25511; 21046; 12289; 32593; 39029; 25628; 32034;
   12289; 25991; 20214; 35835; 20889; 12289; 25191; 34892; 21629; 20196;
   12289; 31383; 21475; 25511; 21046; 12289; 79; 67; 82; 35782; 21035; 12290;
   10; 29992; 25143; 35831; 27714; 25805; 20316; 26102; 65292; 29983; 25104;
   30456; 24212; 30340; 80; 121; 116; 104; 111; 110; 20195; 30721; 26469;
   23436; 25104; 20219; 21153; 12290; 10; 22238; 22797; 31616; 30701; 65288;
   53; 48; 23383; 20197; 20869; 65289; 65292; 36731; 26494; 21487; 29233;
   12290].

End Text.
Import Text.

(** ** HTTP collaborators *)
Module Http.

(** [response.json()] and the reading of its keys: the decoded body, or the
    exception raised. *)
Inductive decoded (B : Type) :=
| Json (b : B)
| Undecodable (e : str).
Arguments Json {B} b.
Arguments Undecodable {B} e.

(** [requests.post(...)]: raises (connection error, timeout), or returns. *)
Inductive reply (B : Type) :=
| Raises (e : str)
| Response (status_code : N) (body : decoded B).
Arguments Raises {B} e.
Arguments Response {B} status_code body.

(** [POST /chat]: each key may be absent. *)
Record ChatBody := mkChat {
  r_response : option str;
  r_pending_code : option (dict str);
  r_mode : option str
}.

(** The fallback model: [{message: {content}}]. *)
Record OllamaMessage := mkMessage { r_content : option str }.
Record OllamaBody := mkOllama { r_message : option OllamaMessage }.

(** [POST /execute] *)
Record ExecBody := mkExec { r_output : option str }.

Inductive request :=
| PostChat (message : str)
| PostOllama (system_prompt prompt : str)
| PostExecute (language code : str).

End Http.
Import Http.

(** ** class ChatBubble *)
Module ChatBubble.

Inductive button_style := StyleIdle | StyleRecording | StyleTranscribing.

Inductive signal :=
| response_ready (text : str)
| voice_text_ready (text : str)
| code_confirm_ready (response_text : str) (pending : dict str).

Inductive worker :=
| RecordVoice
| CallLlm (prompt : str).

Record state := mkState {
  response_label : str;
  input_field : str;
  voice_btn : button_style;
  is_recording : bool;
  pending_code : option (dict str);
  confirm_shown : bool;            (* confirm_btn and cancel_btn are visible *)
  has_voice : bool;                (* self.voice_module is not None *)
  stop_requested : bool;           (* voice_module._stop_recording *)
  disk : FS;
  requests : list request;         (* HTTP calls issued, oldest first *)
  spoken : list str;               (* voice_module.speak_async calls *)
  workers : list worker;           (* background threads started *)
  emitted : list signal            (* signals emitted, oldest first *)
}.

Definition set_label (t : str) (w : state) : state :=
  mkState t (input_field w) (voice_btn w) (is_recording w) (pending_code w)
    (confirm_shown w) (has_voice w) (stop_requested w) (disk w) (requests w)
    (spoken w) (workers w) (emitted w).

Definition set_input (t : str) (w : state) : state :=
  mkState (response_label w) t (voice_btn w) (is_recording w) (pending_code w)
    (confirm_shown w) (has_voice w) (stop_requested w) (disk w) (requests w)
    (spoken w) (workers w) (emitted w).

Definition set_voice_btn (b : button_style) (w : state) : state :=
  mkState (response_label w) (input_field w) b (is_recording w) (pending_code w)
    (confirm_shown w) (has_voice w) (stop_requested w) (disk w) (requests w)
    (spoken w) (workers w) (emitted w).

Definition set_recording (b : bool) (w : state) : state :=
  mkState (response_label w) (input_field w) (voice_btn w) b (pending_code w)
    (confirm_shown w) (has_voice w) (stop_requested w) (disk w) (requests w)
    (spoken w) (workers w) (emitted w).

Definition set_pending (p : option (dict str)) (w : state) : state :=
  mkState (response_label w) (input_field w) (voice_btn w) (is_recording w) p
    (confirm_shown w) (has_voice w) (stop_requested w) (disk w) (requests w)
    (spoken w) (workers w) (emitted w).

Definition set_confirm_shown (b : bool) (w : state) : state :=
  mkState (response_label w) (input_field w) (voice_btn w) (is_recording w)
    (pending_code w) b (has_voice w) (stop_requested w) (disk w) (requests w)
    (spoken w) (workers w) (emitted w).

Definition set_stop_requested (b : bool) (w : state) : state :=
  mkState (response_label w) (input_field w) (voice_btn w) (is_recording w)
    (pending_code w) (confirm_shown w) (has_voice w) b (disk w) (requests w)
    (spoken w) (workers w) (emitted w).

Definition set_disk (d : FS) (w : state) : state :=
  mkState (response_label w) (input_field w) (voice_btn w) (is_recording w)
    (pending_code w) (confirm_shown w) (has_voice w) (stop_requested w) d
    (requests w) (spoken w) (workers w) (emitted w).

(** [requests.post(...)] is called. *)
Definition post (r : request) (w : state) : state :=
  mkState (response_label w) (input_field w) (voice_btn w) (is_recording w)
    (pending_code w) (confirm_shown w) (has_voice w) (stop_requested w) (disk w)
    (requests w ++ [r]) (spoken w) (workers w) (emitted w).

(** [if self.voice_module: self.voice_module.speak_async(text)] *)
Definition say (t : str) (w : state) : state :=
  if has_voice w then
    mkState (response_label w) (input_field w) (voice_btn w) (is_recording w)
      (pending_code w) (confirm_shown w) (has_voice w) (stop_requested w) (disk w)
      (requests w) (spoken w ++ [t]) (workers w) (emitted w)
  else w.

(** [threading.Thread(target=...).start()] *)
Definition start (k : worker) (w : state) : state :=
  mkState (response_label w) (input_field w) (voice_btn w) (is_recording w)
    (pending_code w) (confirm_shown w) (has_voice w) (stop_requested w) (disk w)
    (requests w) (spoken w) (workers w ++ [k]) (emitted w).

Definition log_signal (s : signal) (w : state) : state :=
  mkState (response_label w) (input_field w) (voice_btn w) (is_recording w)
    (pending_code w) (confirm_shown w) (has_voice w) (stop_requested w) (disk w)
    (requests w) (spoken w) (workers w) (emitted w ++ [s]).

(** [__init__] *)
Definition init (voice : bool) (d : FS) : state :=
  mkState MSG_WELCOME [] StyleIdle false None false voice false d [] [] [] [].

Definition _update_response (text : str) (w : state) : state :=
  set_label text w.

Definition _show_code_confirm (response_text : str) (pending : dict str)
    (w : state) : state :=
  let w := set_pending (Some pending) w in
  let code_preview := slice_to 100 (get_or (lit "code") [] pending) in
  let display_text :=
    lit "[Agent] " ++ response_text ++ PREVIEW_HEAD ++ code_preview ++ lit "..." in
  let w := set_label display_text w in
  set_confirm_shown true w.

Definition _hide_confirm_buttons (w : state) : state :=
  set_pending None (set_confirm_shown false w).

Definition _on_cancel_execute (w : state) : state :=
  let w := set_pending None w in
  let w := _hide_confirm_buttons w in
  set_label MSG_CANCELLED w.

(** [_on_confirm_execute]; [exec] is what the execution endpoint does if it
    is called.  A key missing from the pending dict raises [KeyError] while
    the request is being built, inside the [try]. *)
Definition _on_confirm_execute (exec : reply ExecBody) (w : state) : state :=
  match pending_code w with
  | None => w
  | Some [] => w
  | Some pending =>
      let w :=
        match get (lit "language") pending with
        | None => set_label (MSG_EXEC_ERROR ++ slice_to 50 (lit "'language'")) w
        | Some language =>
            match get (lit "code") pending with
            | None => set_label (MSG_EXEC_ERROR ++ slice_to 50 (lit "'code'")) w
            | Some code =>
                let w := post (PostExecute language code) w in
                match exec with
                | Raises e => set_label (MSG_EXEC_ERROR ++ slice_to 50 e) w
                | Response status_code body =>
                    if status_code =? 200 then
                      match body with
                      | Undecodable e => set_label (MSG_EXEC_ERROR ++ slice_to 50 e) w
                      | Json result =>
                          let output :=
                            match r_output result with
                            | Some o => o
                            | None => MSG_NO_OUTPUT
                            end in
                          set_label (MSG_EXEC_DONE ++ output) w
                      end
                    else set_label MSG_EXEC_FAILED w
                end
            end
        end in
      let w := _hide_confirm_buttons w in
      say SAY_EXEC_DONE w
  end.

(** [QLineEdit.setText]: the field keeps [text.left(maxLength)], and
    [maxLength] is left at its default, 32767.  A [QString] counts UTF-16
    code units: a code point above U+FFFF takes two, and when the cut falls
    between them only the first, a high surrogate, is kept. *)
Definition MAX_LENGTH : N := 32767.

Definition utf16_length (s : str) : N :=
  fold_right (fun c n => (if c <? 65536 then 1 else 2) + n) 0 s.

(** [QChar::highSurrogate]: [ushort((c >> 10) + 0xd7c0)]. *)
Definition high_surrogate (c : N) : N := (c / 1024 + 55232) mod 65536.

Fixpoint qstring_left (n : N) (s : str) : str :=
  match s with
  | [] => []
  | c :: r =>
      if n =? 0 then []
      else if c <? 65536 then c :: qstring_left (n - 1) r
      else if n =? 1 then [high_surrogate c]
      else c :: qstring_left (n - 2) r
  end.

Definition setText (text : str) (w : state) : state :=
  set_input (qstring_left MAX_LENGTH text) w.

Definition send_message (w : state) : state :=
  let text := strip (input_field w) in
  if negb (truthy text) then w
  else
    let w := set_input [] w in
    let w := set_label MSG_THINKING w in
    start (CallLlm text) w.

Definition _on_voice_text (text : str) (w : state) : state :=
  let w := set_recording false w in
  let w := set_voice_btn StyleIdle w in
  if truthy text then send_message (setText text w)
  else set_label MSG_NOT_HEARD w.

Definition toggle_voice_input (w : state) : state :=
  if negb (has_voice w) then w
  else if is_recording w then
    let w := set_stop_requested true w in
    let w := set_label MSG_TRANSCRIBING w in
    set_voice_btn StyleTranscribing w
  else
    let w := set_recording true w in
    let w := set_voice_btn StyleRecording w in
    let w := set_label MSG_RECORDING w in
    start RecordVoice w.

(** [_record_voice]: [voice_input] raised ([None]), or returned [None] or a
    text; the worker hands the text, or the empty string, to the interface. *)
Definition _record_voice (result : option (option str)) (w : state) : state :=
  let text :=
    match result with
    | Some (Some t) => if truthy t then t else []
    | _ => []
    end in
  _on_voice_text text (log_signal (voice_text_ready text) w).

(** What the environment hands to one run of [_call_llm]. *)
Record Env := mkEnv {
  context : str;                   (* parent_pet.get_context() *)
  now : str;                       (* datetime.now().strftime(...) *)
  primary : reply ChatBody;        (* POST http://localhost:8000/chat *)
  fallback : reply OllamaBody      (* POST http://localhost:11434/api/chat *)
}.

Inductive outcome :=
| Returned (w : state)
| Uncaught (w : state).             (* the worker dies on an exception *)

Definition final (o : outcome) : state :=
  match o with Returned w => w | Uncaught w => w end.

Definition system_prompt (context : str) : str :=
  SYSTEM_PROMPT_HEAD ++ (if truthy context then CONTEXT_HEAD ++ context else []).

(** [bool(answer)] for [answer] that is [None] or a string. *)
Definition truthy_opt {A} (o : option (list A)) : bool :=
  match o with Some l => truthy l | None => false end.

Definition text_of (answer : option str) : str :=
  match answer with Some a => a | None => [] end.

Definition mode_label (mode : str) : str :=
  if eqb_str mode (lit "chat") then lit "[Chat]"
  else if eqb_str mode (lit "agent") then lit "[Agent]"
  else if eqb_str mode (lit "fallback") then lit "[Backup]"
  else [].

(** The local variables [answer], [pending_code], [mode]. *)
Record locals := mkLocals {
  answer : option str;
  l_pending_code : option (dict str);
  mode : str
}.

(** The first [try] of [_call_llm]: the agent endpoint. *)
Definition try_agent (r : reply ChatBody) : locals :=
  match r with
  | Response status_code (Json result) =>
      if status_code =? 200 then
        mkLocals (Some (match r_response result with Some a => a | None => [] end))
                 (r_pending_code result)
                 (match r_mode result with Some m => m | None => lit "chat" end)
      else mkLocals None None (lit "chat")
  | _ => mkLocals None None (lit "chat")
  end.

(** The last [if] of [_call_llm]: record the turn and hand the reply over. *)
Definition send_result (env : Env) (prompt : str) (l : locals) (w : state)
    : outcome :=
  if truthy_opt (answer l) then
    let a := text_of (answer l) in
    match record_turn (mkTurn (now env) prompt (slice_to 200 a)) (disk w) with
    | None => Uncaught w
    | Some d =>
        let w := set_disk d w in
        if truthy_opt (l_pending_code l) && eqb_str (mode l) (lit "agent") then
          let pending := match l_pending_code l with Some p => p | None => [] end in
          let w := log_signal (code_confirm_ready a pending) w in
          let w := _show_code_confirm a pending w in
          Returned (say SAY_CONFIRM w)
        else
          let text := mode_label (mode l) ++ lit " " ++ a in
          let w := log_signal (response_ready text) w in
          let w := _update_response text w in
          Returned (say a w)
    end
  else
    let w := log_signal (response_ready MSG_SPEECHLESS) w in
    Returned (_update_response MSG_SPEECHLESS w).

Definition _call_llm (env : Env) (prompt : str) (w : state) : outcome :=
  let sp := system_prompt (context env) in
  let full_message := sp ++ USER_HEAD ++ prompt in
  let w := post (PostChat full_message) w in
  let l := try_agent (primary env) in
  if negb (truthy_opt (answer l)) then
    let l := mkLocals (answer l) (l_pending_code l) (lit "fallback") in
    let w := post (PostOllama sp prompt) w in
    let unreachable :=
      let w := log_signal (response_ready MSG_UNREACHABLE) w in
      Returned (_update_response MSG_UNREACHABLE w) in
    match fallback env with
    | Raises _ => unreachable
    | Response status_code body =>
        if status_code =? 200 then
          match body with
          | Undecodable _ => unreachable
          | Json result =>
              let a := match r_message result with
                       | Some m => match r_content m with Some c => c | None => [] end
                       | None => []
                       end in
              send_result env prompt (mkLocals (Some a) (l_pending_code l) (mode l)) w
          end
        else send_result env prompt l w
    end
  else send_result env prompt l w.

(** The agent endpoint produced a reply: status 200, a body that decodes, a
    non-empty [response]. *)
Definition agent_replied (r : reply ChatBody) : bool :=
  match r with
  | Response status_code (Json result) =>
      (status_code =? 200)
      && match r_response result with Some a => truthy a | None => false end
  | _ => false
  end.

(** The fallback call raised inside its [try]: the request failed, or the
    body of a 200 response did not decode. *)
Definition fallback_raised (r : reply OllamaBody) : bool :=
  match r with
  | Raises _ => true
  | Response status_code (Undecodable _) => status_code =? 200
  | Response _ (Json _) => false
  end.

(** The fallback model produced a reply. *)
Definition fallback_replied (r : reply OllamaBody) : bool :=
  match r with
  | Response status_code (Json result) =>
      (status_code =? 200)
      && match r_message result with
         | Some m => match r_content m with Some c => truthy c | None => false end
         | None => false
         end
  | _ => false
  end.

(** The values of [answer], [pending_code] and [mode] when [_call_llm]
    reaches its last [if]; [None] when it returned from the [except]. *)
Definition dispatch (env : Env) : option locals :=
  let l := try_agent (primary env) in
  if truthy_opt (answer l) then Some l
  else
    match fallback env with
    | Raises _ => None
    | Response status_code body =>
        if status_code =? 200 then
          match body with
          | Undecodable _ => None
          | Json result =>
              let a := match r_message result with
                       | Some m => match r_content m with Some c => c | None => [] end
                       | None => []
                       end in
              Some (mkLocals (Some a) (l_pending_code l) (lit "fallback"))
          end
        else Some (mkLocals (answer l) (l_pending_code l) (lit "fallback"))
    end.

Definition fallback_calls (w : state) : nat :=
  length (filter (fun r => match r with PostOllama _ _ => true | _ => false end)
                 (requests w)).

(** What can happen to a bubble: an event of the interface, or the run of a
    worker. *)
Inductive step : state -> state -> Prop :=
| step_type w t : step w (set_input t w)
| step_send w : step w (send_message w)
| step_toggle w : step w (toggle_voice_input w)
| step_record w r : step w (_record_voice r w)
| step_llm w env prompt : step w (final (_call_llm env prompt w))
| step_confirm w exec : step w (_on_confirm_execute exec w)
| step_cancel w : step w (_on_cancel_execute w)
| step_clear w : step w (set_disk (_clear_history (disk w)) w).

Inductive reachable : state -> Prop :=
| reach_init voice d : reachable (init voice d)
| reach_step w w' : reachable w -> step w w' -> reachable w'.

(** The run ended in the confirmation state for payload [p]. *)
Definition routed (w w' : state) (a : str) (p : dict str) : Prop :=
  emitted w' = emitted w ++ [code_confirm_ready a p]
  /\ pending_code w' = Some p
  /\ confirm_shown w' = true.

End ChatBubble.

(** ** class VoiceModule: speech output *)
Module VoiceModule.

(** What the edge-tts coroutine does when it runs. *)
Inductive edge_result :=
| EdgePlayed                     (* the audio was generated and played *)
| EdgeImportError                (* import edge_tts / pygame fails *)
| EdgeException (e : str)        (* any other Exception inside the coroutine *)
| RunRaises.                     (* asyncio.run itself raises *)

(** What pyttsx3 does. *)
Inductive init_result := InitOk | InitImportError | InitException.

Record Env := mkEnv {
  edge : edge_result;
  offline_init : init_result;
  offline_say_ok : bool
}.

Inductive event :=
| EdgeSpoke (voice text : str)
| OfflineCalled (text : str)      (* _speak_offline is entered *)
| OfflineSpoke (text : str)       (* the engine said the text *)
| Printed.

Record state := mkState {
  language : str;
  tts_engine : str;
  pyttsx_engine : bool;           (* self._pyttsx_engine is not None *)
  trace : list event
}.

Definition log (e : event) (v : state) : state :=
  mkState (language v) (tts_engine v) (pyttsx_engine v) (trace v ++ [e]).

Definition _init_offline_tts (env : Env) (v : state) : bool * state :=
  if pyttsx_engine v then (true, v)
  else
    match offline_init env with
    | InitOk => (true, log Printed (mkState (language v) (tts_engine v) true (trace v)))
    | InitImportError => (false, log Printed v)
    | InitException => (false, log Printed v)
    end.

Definition _speak_offline (env : Env) (text : str) (v : state) : state :=
  let v := log (OfflineCalled text) v in
  let (ok, v) := _init_offline_tts env v in
  if negb ok then v
  else if offline_say_ok env then log (OfflineSpoke text) v
  else log Printed v.

Definition edge_voice (language : str) : str :=
  if eqb_str language (lit "zh") then lit "zh-CN-XiaoxiaoNeural"
  else if eqb_str language (lit "en") then lit "en-US-JennyNeural"
  else if eqb_str language (lit "ja") then lit "ja-JP-NanamiNeural"
  else lit "zh-CN-XiaoxiaoNeural".

Definition _speak_edge (env : Env) (text : str) (v : state) : state :=
  match edge env with
  | EdgePlayed => log (EdgeSpoke (edge_voice (language v)) text) v
  | EdgeImportError => _speak_offline env text (log Printed v)
  | EdgeException _ => log Printed v
  | RunRaises => _speak_offline env text v
  end.

Definition speak (env : Env) (text : str) (v : state) : state :=
  if negb (truthy text) then v
  else if eqb_str (tts_engine v) (lit "edge") then _speak_edge env text v
  else _speak_offline env text v.

Definition offline_called (v : state) : bool :=
  existsb (fun e => match e with OfflineCalled _ => true | _ => false end) (trace v).

End VoiceModule.

(** ** Concrete inputs used by the examples below *)
Module Sample.
Import ChatBubble.

Definition fs_empty : FS := mkFS Missing true.

Definition stamp : str := lit "2025-01-01 12:00".

Definition turn_n (n : nat) : Turn := mkTurn stamp (lit "ping") (repeat 33 n).

(** 101 different turns. *)
Definition many : list Turn := map turn_n (seq 0 101).

Definition refused {B} : reply B := Raises (lit "ConnectionError").

Definition action : dict str :=
  [(lit "language", lit "python"); (lit "code", lit "print(1)")].

(** Both endpoints are down. *)
Definition env_down : Env := mkEnv [] stamp refused refused.

(** The agent is down and the fallback model answers 503. *)
Definition env_busy : Env :=
  mkEnv [] stamp refused (Response 503 (Undecodable [])).

(** The agent proposes an action. *)
Definition env_agent : Env :=
  mkEnv [] stamp
    (Response 200 (Json (mkChat (Some (lit "ok")) (Some action) (Some (lit "agent")))))
    refused.

(** The agent answers in chat mode. *)
Definition env_chat : Env :=
  mkEnv [] stamp
    (Response 200 (Json (mkChat (Some (lit "hi")) None (Some (lit "chat")))))
    refused.

(** The agent times out and the fallback model answers. *)
Definition env_backup : Env :=
  mkEnv [] stamp refused
    (Response 200 (Json (mkOllama (Some (mkMessage (Some (lit "fallback answer"))))))).

Definition w0 : state := init true fs_empty.

(** The state while the microphone is recording. *)
Definition w_listening : state := toggle_voice_input w0.

(** The state after the agent proposed [action]. *)
Definition w_confirming : state := final (_call_llm env_agent (lit "open browser") w0).

End Sample.

(** ** Views of a bubble used by the properties *)
Module View.
Import ChatBubble.

(** What the user can see or hear of a bubble, and what it has sent: every
    field but the history file. *)
Definition ui_view (w : state) :=
  (response_label w, input_field w, voice_btn w, is_recording w,
   pending_code w, confirm_shown w,
   (requests w, spoken w, workers w, emitted w)).

(** The confirm and cancel buttons agree with the pending action. *)
Definition buttons_match (w : state) : Prop :=
  confirm_shown w = match pending_code w with Some _ => true | None => false end.

(** The run ends with the agent proposing an action: mode "agent" and a
    non-empty payload. *)
Definition proposes (env : Env) : bool :=
  match dispatch env with
  | Some l => truthy_opt (l_pending_code l) && eqb_str (mode l) (lit "agent")
  | None => false
  end.

(** The text handed over by [_record_voice]. *)
Definition heard (result : option (option str)) : str :=
  match result with
  | Some (Some t) => if truthy t then t else []
  | _ => []
  end.

(** The microphone button is pressed [n] times. *)
Fixpoint presses (n : nat) (w : state) : state :=
  match n with
  | O => w
  | S n' => toggle_voice_input (presses n' w)
  end.

(** An event of the speech trace in which an engine spoke. *)
Definition spoke (e : VoiceModule.event) : bool :=
  match e with
  | VoiceModule.EdgeSpoke _ _ => true
  | VoiceModule.OfflineSpoke _ => true
  | _ => false
  end.

End View.

(** ** class IoPet: context, geometry and the mouse *)
Module IoPet.

Definition CTX_USING : str := [29992; 25143; 27491; 22312; 20351; 29992; 32].
Definition CTX_WINDOW : str := [65292; 31383; 21475; 65306].

Record activity := mkActivity { current_app : str; current_title : str }.

Definition get_context (a : activity) : str :=
  if truthy (current_app a) && truthy (current_title a) then
    let title :=
      if (50 <? length (current_title a))%nat
      then slice_to 50 (current_title a) ++ lit "..."
      else current_title a in
    CTX_USING ++ current_app a ++ CTX_WINDOW ++ title
  else if truthy (current_app a) then CTX_USING ++ current_app a
  else [].

(** [GET /context]: [success] is the truth value of that key. *)
Record ContextBody := mkContext {
  c_success : bool;
  c_title : option str;
  c_app : option str
}.

Definition _update_activity (r : reply ContextBody) (a : activity) : activity :=
  match r with
  | Response status_code (Json data) =>
      if status_code =? 200 then
        if c_success data then
          mkActivity (match c_app data with Some x => x | None => [] end)
                     (match c_title data with Some x => x | None => [] end)
        else a
      else a
  | _ => a
  end.

(** Sizes fixed by [setFixedSize(150, 150)] and [setFixedWidth(380)]. *)
Definition PET_SIZE : Z := 150.
Definition BUBBLE_WIDTH : Z := 380.

Definition point := (Z * Z)%type.

Definition minus (p q : point) : point := (fst p - fst q, snd p - snd q)%Z.

Record window := mkWindow {
  pos : point;                     (* top left corner of the pet *)
  drag_position : option point;
  is_dragging : bool;
  bubble_visible : bool;
  bubble_pos : point;
  bubble_height : Z;
  screen_width : Z
}.

(** [ChatBubble.position_above_pet]: where the bubble is moved to. *)
Definition position_above_pet (s : window) : point :=
  let x := (fst (pos s) + PET_SIZE / 2 - BUBBLE_WIDTH / 2)%Z in
  let y := (snd (pos s) - bubble_height s - 10)%Z in
  let x := Z.max 10 (Z.min x (screen_width s - BUBBLE_WIDTH - 10)) in
  let y := Z.max 10 y in
  (x, y).

Definition toggle_chat (s : window) : window :=
  if bubble_visible s then
    mkWindow (pos s) (drag_position s) (is_dragging s) false (bubble_pos s)
      (bubble_height s) (screen_width s)
  else
    mkWindow (pos s) (drag_position s) (is_dragging s) true (position_above_pet s)
      (bubble_height s) (screen_width s).

Inductive button := LeftButton | OtherButton.

Definition mousePressEvent (b : button) (g : point) (s : window) : window :=
  match b with
  | LeftButton =>
      mkWindow (pos s) (Some (minus g (pos s))) false (bubble_visible s)
        (bubble_pos s) (bubble_height s) (screen_width s)
  | OtherButton => s
  end.

Definition mouseMoveEvent (g : point) (s : window) : window :=
  match drag_position s with
  | Some d =>
      let s := mkWindow (minus g d) (Some d) true (bubble_visible s) (bubble_pos s)
                 (bubble_height s) (screen_width s) in
      if bubble_visible s then
        mkWindow (pos s) (drag_position s) (is_dragging s) (bubble_visible s)
          (position_above_pet s) (bubble_height s) (screen_width s)
      else s
  | None => s
  end.

Definition mouseReleaseEvent (b : button) (s : window) : window :=
  match b with
  | LeftButton =>
      let s := if negb (is_dragging s) then toggle_chat s else s in
      mkWindow (pos s) None false (bubble_visible s) (bubble_pos s)
        (bubble_height s) (screen_width s)
  | OtherButton => s
  end.

(** The pointer moves through the points [gs] in turn. *)
Definition moves (gs : list point) (s : window) : window :=
  fold_left (fun s g => mouseMoveEvent g s) gs s.

End IoPet.

(** ** class HistoryWindow *)
Module HistoryWindow.

Definition ITEM_TIME : str := [128336; 32].
Definition ITEM_USER : str := [10; 128100; 32].
Definition ITEM_AI : str := [10; 129302; 32].

(** What filling the list does. *)
Inductive listing :=
| Listed (items : list str)
| Dies                    (* an entry is not a dict: [AttributeError] *)
| Unrendered.             (* a field is a number or a container, whose
                             rendering by [str()] is not modelled *)

(** [f"{x}"] for a value of the log. *)
Definition render (v : value) : option str :=
  match v with
  | JStr s => Some s
  | JNull => Some (lit "None")
  | JBool true => Some (lit "True")
  | JBool false => Some (lit "False")
  | _ => None
  end.

(** [entry.get(key, "")], rendered. *)
Definition field (key : str) (entry : dict value) : option str :=
  match get key entry with
  | Some v => render v
  | None => Some []
  end.

Definition item_text (entry : value) : listing :=
  match entry with
  | JObj fields =>
      match field (lit "time") fields, field (lit "user") fields,
            field (lit "ai") fields with
      | Some t, Some u, Some a =>
          Listed [ITEM_TIME ++ t ++ ITEM_USER ++ u ++ ITEM_AI ++ a]
      | _, _, _ => Unrendered
      end
  | _ => Dies
  end.

(** The loop over [reversed(history)]. *)
Fixpoint add_items (entries : list value) : listing :=
  match entries with
  | [] => Listed []
  | e :: rest =>
      match item_text e with
      | Listed i =>
          match add_items rest with
          | Listed items => Listed (i ++ items)
          | other => other
          end
      | other => other
      end
  end.

(** [_load_history]: the items shown, newest first. *)
Definition _load_history (fs : FS) : listing :=
  match load_history fs with
  | JArr history => add_items (rev history)
  | JObj fields => add_items (map (fun kv => JStr (fst kv)) (rev fields))
  | JStr s => match s with [] => Listed [] | _ => Dies end
  | _ => Dies
  end.

(** [_clear_history]: the file, and the list shown. *)
Definition _clear_history (fs : FS) : FS * listing :=
  (save_history (JArr []) fs, Listed []).

(** The text of the item shown for a turn. *)
Definition turn_item (t : Turn) : str :=
  ITEM_TIME ++ time t ++ ITEM_USER ++ user t ++ ITEM_AI ++ ai t.

End HistoryWindow.

(** ** class VoiceModule: speech input *)
Module VoiceInput.

(** One block handed to the stream callback: [len(indata)], and whether
    [np.abs(indata).mean()] is below [silence_threshold]. *)
Record chunk := mkChunk { samples : N; quiet : bool }.

(** [int(silence_duration * sample_rate)] and
    [sample_rate * max_record_duration]. *)
Definition SILENCE_SAMPLES : N := 24000.
Definition MAX_SAMPLES : N := 480000.

(** What happens while [record_audio] runs: the loop wakes from
    [sd.sleep(100)] after the callback delivered some blocks, the user
    presses stop ([stop_recording] sets the flag), or the stream raises.
    Blocks are taken to arrive while the loop sleeps. *)
Inductive mic_event :=
| Tick (arrived : list chunk)
| StopPressed
| Fault.

Inductive ending := ByStop | BySilence | ByCeiling.

(** The variables of the loop. *)
Record recording := mkRecording {
  audio_chunks : list chunk;
  silence_samples : N;
  _stop_recording : bool
}.

Inductive loop_result :=
| Ended (why : ending) (chunks : list chunk)
| Failed                           (* an exception left the [with] block *)
| Running (r : recording).         (* the events given do not end the loop *)

(** [sum(len(c) for c in audio_chunks)] *)
Definition total (chunks : list chunk) : N :=
  fold_right (fun c n => samples c + n) 0 chunks.

(** [audio_chunks[-1]] *)
Definition recent (chunks : list chunk) : option chunk :=
  match rev chunks with
  | c :: _ => Some c
  | [] => None
  end.

(** The [while True] of [record_audio]. *)
Fixpoint record_loop (events : list mic_event) (r : recording) : loop_result :=
  match events with
  | [] => Running r
  | StopPressed :: rest =>
      record_loop rest (mkRecording (audio_chunks r) (silence_samples r) true)
  | Fault :: _ => Failed
  | Tick arrived :: rest =>
      let chunks := audio_chunks r ++ arrived in
      let max_duration_check (silence : N) :=
        if MAX_SAMPLES <? total chunks then Ended ByCeiling chunks
        else record_loop rest (mkRecording chunks silence false) in
      if _stop_recording r then Ended ByStop chunks
      else
        match recent chunks with
        | Some c =>
            if quiet c then
              let silence := silence_samples r + samples c in
              if SILENCE_SAMPLES <=? silence then Ended BySilence chunks
              else max_duration_check silence
            else max_duration_check 0
        | None => max_duration_check (silence_samples r)
        end
  end.

(** The blocks delivered by a list of events, oldest first. *)
Fixpoint delivered (events : list mic_event) : list chunk :=
  match events with
  | [] => []
  | Tick arrived :: rest => arrived ++ delivered rest
  | _ :: rest => delivered rest
  end.

(** A wake-up whose newest block is quiet and has [m] samples. *)
Definition quiet_tick (m : N) (e : mic_event) : Prop :=
  exists earlier c, e = Tick (earlier ++ [c]) /\ quiet c = true /\ samples c = m.

(** A wake-up that brought at least [k] samples. *)
Definition busy_tick (k : N) (e : mic_event) : Prop :=
  exists arrived, e = Tick arrived /\ k <= total arrived.

Inductive cue := StartBeep | StopBeep.

(** How a call ends, when it does. *)
Inductive run (A : Type) :=
| Done (a : A)
| Raise                            (* an exception reaches the caller *)
| Unfinished.                      (* still recording *)
Arguments Done {A} a.
Arguments Raise {A}.
Arguments Unfinished {A}.

(** [record_audio]: the cues played and the audio returned, [None] when
    nothing was captured or the stream failed.  The stop flag is reset
    first, so a stop requested earlier is forgotten.  The stop cue is played
    before the loop is left, with the stream still open: the blocks [late]
    that the callback delivers until the stream is closed are part of the
    audio returned. *)
Definition record_audio (events : list mic_event) (late : list chunk)
    : list cue * run (option (list chunk)) :=
  match record_loop events (mkRecording [] 0 false) with
  | Ended _ chunks =>
      ([StartBeep; StopBeep],
       Done (match chunks ++ late with [] => None | c :: audio => Some (c :: audio) end))
  | Failed => ([StartBeep], Done None)
  | Running _ => ([StartBeep], Unfinished)
  end.

Inductive import_result :=
| Imported
| ImportFails                      (* ImportError *)
| ImportBreaks.                    (* another exception, such as OSError *)

Inductive load_result := Loaded | LoadFails.

Record state := mkState {
  _initialized : bool;
  _whisper_model : bool;           (* self._whisper_model is not None *)
  tts_offline : bool;              (* self.tts_engine == "offline" *)
  _pyttsx_engine : bool            (* self._pyttsx_engine is not None *)
}.

(** What the environment does during one [voice_input]. *)
Record Env := mkEnv {
  imports : import_result;         (* numpy, sounddevice, soundfile *)
  pyttsx : VoiceModule.init_result;
  microphone : list mic_event;
  during_cue : list chunk;         (* blocks delivered while the stop cue plays *)
  whisper : load_result;           (* loading the model *)
  wav_written : bool;              (* sf.write succeeds *)
  recognised : option str          (* the joined segments; None: it raises *)
}.

Definition _init_offline_tts (env : Env) (v : state) : bool * state :=
  if _pyttsx_engine v then (true, v)
  else
    match pyttsx env with
    | VoiceModule.InitOk =>
        (true, mkState (_initialized v) (_whisper_model v) (tts_offline v) true)
    | _ => (false, v)
    end.

Definition initialize (env : Env) (v : state) : run (bool * state) :=
  if _initialized v then Done (true, v)
  else
    match imports env with
    | Imported =>
        let v := if tts_offline v then snd (_init_offline_tts env v) else v in
        Done (true, mkState true (_whisper_model v) (tts_offline v) (_pyttsx_engine v))
    | ImportFails => Done (false, v)
    | ImportBreaks => Raise
    end.

Definition _init_whisper (env : Env) (v : state) : bool * state :=
  if _whisper_model v then (true, v)
  else
    match whisper env with
    | Loaded => (true, mkState (_initialized v) true (tts_offline v) (_pyttsx_engine v))
    | LoadFails => (false, v)
    end.

(** [transcribe]; the audio is [None] or the blocks put together. *)
Definition transcribe (env : Env) (audio : option (list chunk)) (v : state)
    : run (str * state) :=
  match audio with
  | None => Done ([], v)
  | Some chunks =>
      if total chunks =? 0 then Done ([], v)
      else
        let (ok, v) := _init_whisper env v in
        if negb ok then Done ([], v)
        else if negb (wav_written env) then Raise
        else
          match recognised env with
          | Some text => Done (strip text, v)
          | None => Done ([], v)
          end
  end.

Definition voice_input (env : Env) (v : state) : list cue * run (option str * state) :=
  match initialize env v with
  | Raise => ([], Raise)
  | Unfinished => ([], Unfinished)
  | Done (false, v) => ([], Done (None, v))
  | Done (true, v) =>
      match record_audio (microphone env) (during_cue env) with
      | (cues, Done None) => (cues, Done (None, v))
      | (cues, Done (Some audio)) =>
          (cues, match transcribe env (Some audio) v with
                 | Done (text, v) => Done (Some text, v)
                 | Raise => Raise
                 | Unfinished => Unfinished
                 end)
      | (cues, Raise) => (cues, Raise)
      | (cues, Unfinished) => (cues, Unfinished)
      end
  end.

(** What [ChatBubble._record_voice] receives from [voice_input]. *)
Definition outcome_of (r : run (option str * state)) : option (option (option str)) :=
  match r with
  | Done (text, _) => Some (Some text)
  | Raise => Some None
  | Unfinished => None
  end.

End VoiceInput.

(** ** More concrete inputs *)
Module Cases.
Import ChatBubble.

(** A bubble without a voice module. *)
Definition w_mute : state := init false Sample.fs_empty.

(** A history file that cannot be written. *)
Definition fs_locked : FS := mkFS Missing false.

(** The execution endpoint answers with an output. *)
Definition exec_ok : reply ExecBody := Response 200 (Json (mkExec (Some (lit "1")))).

(** A stored log of two turns. *)
Definition two_turns : list Turn := [Sample.turn_n 1; Sample.turn_n 2].
Definition fs_two : FS := mkFS (Content (dumps (turns_json two_turns))) true.
Definition fs_two_locked : FS := mkFS (Content (dumps (turns_json two_turns))) false.

(** A reply that ends in a lone surrogate, as the JSON body
    [{"response": "ok \ud83d"}] decodes, and the turn made of it. *)
Definition reply_lone : str := lit "ok " ++ [55357].
Definition turn_lone : Turn := mkTurn Sample.stamp (lit "ping") reply_lone.

(** The agent answers with that reply. *)
Definition env_lone : Env :=
  mkEnv [] Sample.stamp
    (Response 200 (Json (mkChat (Some reply_lone) None (Some (lit "chat")))))
    Sample.refused.

(** A pet at (500, 600) on a screen 1920 wide, its bubble 150 high. *)
Definition pet : IoPet.window :=
  IoPet.mkWindow (500, 600)%Z None false false (0, 0)%Z 150 1920.

(** Blocks of 100 ms at 16 kHz. *)
Definition loud : VoiceInput.chunk := VoiceInput.mkChunk 1600 false.
Definition hush : VoiceInput.chunk := VoiceInput.mkChunk 1600 true.

(** A microphone that hears a word and then the stop button. *)
Definition mic_word : list VoiceInput.mic_event :=
  [VoiceInput.Tick [loud]; VoiceInput.StopPressed; VoiceInput.Tick [hush]].

Definition voice_env : VoiceInput.Env :=
  VoiceInput.mkEnv VoiceInput.Imported VoiceModule.InitOk mic_word [hush]
    VoiceInput.Loaded true (Some (lit " hello ")).

Definition voice0 : VoiceInput.state := VoiceInput.mkState false false false false.

End Cases.

(** * Properties *)

(** ** The JSON format: what is written for a log reads back *)
Section JsonFacts.

Lemma hex4_control c : c < 32 ->
  hex4 48 48 (hex_digit (c / 16)) (hex_digit (c mod 16)) = Some c.
Proof.
  intros H. destruct c as [|p]; [reflexivity|].
  repeat (destruct p as [p|p|]; try reflexivity; try (exfalso; lia)).
Qed.

Lemma scanstring_cons c r :
  c <> 34 -> c <> 92 -> 32 <= c -> scanstring (c :: r) = push c (scanstring r).
Proof.
  intros H1 H2 H3. cbn [scanstring].
  rewrite (proj2 (N.eqb_neq _ _) H1), (proj2 (N.eqb_neq _ _) H2).
  rewrite (proj2 (N.ltb_ge _ _) H3). reflexivity.
Qed.

Lemma scanstring_escape_char c s :
  scanstring (escape_char c ++ s) = push c (scanstring s).
Proof.
  unfold escape_char.
  repeat match goal with
  | |- context [N.eqb c ?k] => destruct (N.eqb_spec c k); [subst; reflexivity|]
  end.
  destruct (N.ltb_spec c 32) as [Hlt|Hge].
  - cbn [app scanstring N.eqb Pos.eqb]. rewrite (hex4_control c Hlt).
    assert (Hs : is_high_surrogate c = false).
    { unfold is_high_surrogate. apply andb_false_intro1. apply N.leb_gt. lia. }
    rewrite Hs. cbn [andb]. destruct s as [|b1 [|b2 s]]; reflexivity.
  - apply scanstring_cons; assumption.
Qed.

Lemma scanstring_escaped t rest :
  scanstring (flat_map escape_char t ++ 34 :: rest) = Some (t, rest).
Proof.
  induction t as [|c t IH]; [reflexivity|].
  cbn [flat_map]. rewrite <- app_assoc, scanstring_escape_char, IH. reflexivity.
Qed.

Lemma skip_ws_spaces k s : skip_ws (repeat 32 k ++ s) = skip_ws s.
Proof. induction k as [|k IH]; [reflexivity|]. exact IH. Qed.

Lemma skip_ws_newline_indent level s :
  skip_ws (newline_indent level ++ s) = skip_ws s.
Proof. unfold newline_indent. cbn [app skip_ws is_ws N.eqb Pos.eqb orb]. apply skip_ws_spaces. Qed.

Lemma scan_once_string n t rest :
  scan_once (S n) (encode_basestring t ++ rest) = Some (JStr t, rest).
Proof.
  unfold encode_basestring. cbn [app scan_once N.eqb Pos.eqb].
  rewrite <- app_assoc. cbn [app]. rewrite scanstring_escaped. reflexivity.
Qed.

Lemma app_cons_assoc {A} (x : A) l1 l2 : (x :: l1) ++ l2 = x :: (l1 ++ l2).
Proof. reflexivity. Qed.

Lemma scan_once_turn n t rest :
  scan_once (5 + n) (encode 1 (turn_json t) ++ rest) = Some (turn_json t, rest).
Proof.
  destruct t as [tm us a].
  unfold turn_json, encode_basestring, newline_indent.
  cbn -[scanstring scan_once].
  repeat (rewrite <- ?app_assoc, ?app_cons_assoc). cbn [app].
  cbn. rewrite scanstring_escaped.
  cbn. rewrite scanstring_escaped.
  cbn. rewrite scanstring_escaped.
  reflexivity.
Qed.

Lemma skip_ws_turn t s :
  skip_ws (encode 1 (turn_json t) ++ s) = encode 1 (turn_json t) ++ s.
Proof. reflexivity. Qed.

Lemma array_items_turns l : forall n t acc rest,
  array_items (6 + length l + n)
    (encode 1 (turn_json t) ++ more_items l ++ newline_indent 0 ++ [93] ++ rest) acc
  = Some (JArr (acc ++ map turn_json (t :: l)), rest).
Proof.
  induction l as [|t' l IH]; intros n t acc rest.
  - change (6 + length (@nil Turn) + n)%nat with (S (5 + n)).
    cbn [array_items]. rewrite scan_once_turn. reflexivity.
  - change (6 + length (t' :: l) + n)%nat with (S (5 + S (length l + n))).
    cbn [array_items]. rewrite scan_once_turn.
    unfold more_items. cbn [map flat_map].
    repeat (rewrite <- ?app_assoc, ?app_cons_assoc).
    cbn [app skip_ws is_ws N.eqb Pos.eqb orb].
    rewrite skip_ws_newline_indent, skip_ws_turn.
    etransitivity; [exact (IH n t' (acc ++ [turn_json t]) rest)|].
    rewrite <- app_assoc. reflexivity.
Qed.

Lemma dumps_turns t l :
  dumps (turns_json (t :: l)) =
  [91] ++ newline_indent 1 ++ encode 1 (turn_json t) ++ more_items l
  ++ newline_indent 0 ++ [93].
Proof. reflexivity. Qed.

Lemma length_more_items l : (length l <= length (more_items l))%nat.
Proof.
  unfold more_items. induction l as [|t l IH]; [apply Nat.le_refl|].
  cbn [map flat_map]. rewrite length_app. cbn [app length] in *. lia.
Qed.

Lemma length_encode_turn t : (6 <= length (encode 1 (turn_json t)))%nat.
Proof. destruct t. cbn. lia. Qed.

Lemma encode_turn_head t : exists r, encode 1 (turn_json t) = 123 :: r.
Proof. destruct t. eexists. reflexivity. Qed.

(** Decoding the text written for a list of turns gives the list back. *)
Lemma loads_dumps_turns l : loads (dumps (turns_json l)) = Some (turns_json l).
Proof.
  destruct l as [|t l]; [reflexivity|].
  rewrite dumps_turns. unfold loads.
  set (text := [91] ++ newline_indent 1 ++ encode 1 (turn_json t) ++ more_items l
               ++ newline_indent 0 ++ [93]).
  assert (Hlen : (7 + length l <= length text)%nat).
  { unfold text. repeat rewrite length_app.
    pose proof (length_more_items l). pose proof (length_encode_turn t).
    cbn [length newline_indent repeat Nat.mul Nat.add]. lia. }
  replace (S (2 * length text))
    with (S (6 + length l + (2 * length text - 6 - length l)))%nat by lia.
  generalize (2 * length text - 6 - length l)%nat as n. clear Hlen. intros n.
  unfold text. cbn [app skip_ws is_ws N.eqb Pos.eqb orb scan_once].
  rewrite skip_ws_newline_indent, skip_ws_turn.
  pose proof (array_items_turns l n t [] []) as H. cbn [app] in H.
  destruct (encode_turn_head t) as [r Hr]. rewrite Hr in *.
  cbn [app N.eqb Pos.eqb] in *. rewrite H. reflexivity.
Qed.

(** *** The decoder consumes its input, and its fuel is enough *)

Lemma length_skip_ws s : (length (skip_ws s) <= length s)%nat.
Proof.
  induction s as [|c s IH]; [apply Nat.le_refl|].
  cbn [skip_ws]. destruct (is_ws c); cbn [length]; lia.
Qed.

Lemma push_some c r t rest :
  push c r = Some (t, rest) -> exists t', r = Some (t', rest).
Proof.
  destruct r as [[t' rest']|]; cbn [push]; [|discriminate].
  intros [= _ <-]. exists t'. reflexivity.
Qed.

Ltac break_hyp H :=
  repeat match type of H with
  | context [match ?x with _ => _ end] => destruct x eqn:?; try discriminate H
  | context [if ?x then _ else _] => destruct x eqn:?; try discriminate H
  end.

Lemma scanstring_shorter n : forall s t rest,
  (length s <= n)%nat -> scanstring s = Some (t, rest) ->
  (length rest < length s)%nat.
Proof.
  induction n as [|n IH]; intros s t rest Hn H.
  - destruct s; [discriminate H|cbn [length] in Hn; lia].
  - destruct s as [|c r]; [discriminate H|]. cbn [scanstring] in H.
    break_hyp H;
      try (injection H as <- <-; cbn [length]; lia);
      try (apply push_some in H; destruct H as [t' H]; apply IH in H;
           subst; cbn [length] in *; lia).
Qed.

Lemma span_digits_length s : (length (snd (span_digits s)) <= length s)%nat.
Proof.
  induction s as [|c s IH]; [apply Nat.le_refl|].
  cbn [span_digits]. destruct (is_digit c); [|apply Nat.le_refl].
  destruct (span_digits s). cbn [snd length] in *. lia.
Qed.

Lemma match_int_shorter s i rest :
  match_int s = Some (i, rest) -> (length rest < length s)%nat.
Proof.
  unfold match_int. destruct s as [|c r]; [discriminate|].
  destruct (c =? 48); [intros [= _ <-]; cbn [length]; lia|].
  destruct (is_digit c); [|discriminate].
  pose proof (span_digits_length r) as H. destruct (span_digits r).
  intros [= _ <-]. cbn [snd length] in *. lia.
Qed.

Lemma match_frac_length s : (length (snd (match_frac s)) <= length s)%nat.
Proof.
  unfold match_frac. destruct s as [|dot [|c r]]; try apply Nat.le_refl.
  destruct (_ && _); [|apply Nat.le_refl].
  pose proof (span_digits_length r) as H. destruct (span_digits r).
  cbn [snd length] in *. lia.
Qed.

Lemma match_exp_length s : (length (snd (match_exp s)) <= length s)%nat.
Proof.
  unfold match_exp. destruct s as [|e r]; [apply Nat.le_refl|].
  destruct (_ || _); [|apply Nat.le_refl].
  destruct r as [|sg r']; [apply Nat.le_refl|].
  destruct (_ || _).
  - pose proof (span_digits_length r') as H. destruct (span_digits r') as [[|d ds] rest];
      cbn [snd length] in *; lia.
  - pose proof (span_digits_length (sg :: r')) as H.
    destruct (span_digits (sg :: r')) as [[|d ds] rest]; cbn [snd length] in *; lia.
Qed.

Lemma match_number_shorter s l rest :
  match_number s = Some (l, rest) -> (length rest < length s)%nat.
Proof.
  unfold match_number.
  assert (Hb : forall i s1,
    match s with
    | [] => None
    | c :: r => if c =? 45
                then option_map (fun p => (c :: fst p, snd p)) (match_int r)
                else match_int s
    end = Some (i, s1) -> (length s1 < length s)%nat).
  { intros i s1. destruct s as [|c r]; [discriminate|].
    destruct (c =? 45).
    - destruct (match_int r) as [[i' s1']|] eqn:E; [|discriminate].
      cbn [option_map fst snd]. intros [= _ <-].
      apply match_int_shorter in E. cbn [length]. lia.
    - apply match_int_shorter. }
  destruct (match s with [] => None | _ => _ end) as [[i s1]|]; [|discriminate].
  specialize (Hb i s1 eq_refl).
  pose proof (match_frac_length s1) as Hf. destruct (match_frac s1) as [f s2].
  pose proof (match_exp_length s2) as He. destruct (match_exp s2) as [x s3].
  destruct (_ && _); [discriminate|].
  intros [= _ <-]. cbn [snd] in *. lia.
Qed.

Lemma starts_with_length p : forall s,
  starts_with p s = true -> (length p <= length s)%nat.
Proof.
  induction p as [|x p IH]; intros [|y s]; cbn [starts_with length];
    try discriminate; try lia.
  intros H. apply andb_true_iff in H. destruct H as [_ H]. apply IH in H. lia.
Qed.

Lemma scan_constant_shorter s v rest :
  scan_constant s = Some (v, rest) -> (length rest < length s)%nat.
Proof.
  unfold scan_constant.
  repeat match goal with
  | |- (if starts_with ?p s then Some (_, skipn ?k s) else _) = _ -> _ =>
      let E := fresh "E" in
      let H := fresh "H" in
      destruct (starts_with p s) eqn:E;
      [ apply starts_with_length in E; cbn in E; intros H;
        replace rest with (skipn k s) by congruence;
        rewrite length_skipn; lia | ]
  end.
  destruct (match_number s) as [[l r]|] eqn:Hn; [|intros H; discriminate H].
  intros [= _ <-]. apply match_number_shorter in Hn. exact Hn.
Qed.

(** What a successful scan returns is shorter than what it was given. *)
Lemma scan_shorter n :
  (forall s v rest, scan_once n s = Some (v, rest) -> (length rest < length s)%nat)
  /\ (forall s acc v rest,
        array_items n s acc = Some (v, rest) -> (length rest < length s)%nat)
  /\ (forall s acc v rest,
        object_pairs n s acc = Some (v, rest) -> (length rest < length s)%nat).
Proof.
  induction n as [|n [IHs [IHa IHo]]]; [repeat split; discriminate|].
  split; [|split].
  - intros s v rest H. destruct s as [|c r]; [discriminate H|].
    cbn [scan_once] in H.
    destruct (c =? 34).
    { destruct (scanstring r) as [[t r']|] eqn:E; [|discriminate H].
      injection H as _ <-. apply (scanstring_shorter _ _ _ _ (Nat.le_refl _)) in E.
      cbn [length]. lia. }
    destruct (c =? 123).
    { pose proof (length_skip_ws r) as Hw.
      destruct (skip_ws r) as [|d r'] eqn:E; [discriminate H|].
      destruct (d =? 125); [injection H as _ <-; cbn [length] in *; lia|].
      destruct (d =? 34); [|discriminate H].
      apply IHo in H. cbn [length] in *. lia. }
    destruct (c =? 91).
    { pose proof (length_skip_ws r) as Hw.
      destruct (skip_ws r) as [|d r'] eqn:E; [discriminate H|].
      destruct (d =? 93); [injection H as _ <-; cbn [length] in *; lia|].
      apply IHa in H. cbn [length] in *. lia. }
    apply scan_constant_shorter in H. exact H.
  - intros s acc v rest H. cbn [array_items] in H.
    destruct (scan_once n s) as [[v1 s1]|] eqn:E; [|discriminate H].
    apply IHs in E. pose proof (length_skip_ws s1) as Hw.
    destruct (skip_ws s1) as [|c s2]; [discriminate H|].
    destruct (c =? 93); [injection H as _ <-; cbn [length] in *; lia|].
    destruct (c =? 44); [|discriminate H].
    apply IHa in H. pose proof (length_skip_ws s2). cbn [length] in *. lia.
  - intros s acc v rest H. cbn [object_pairs] in H.
    destruct (scanstring s) as [[key s1]|] eqn:Ek; [|discriminate H].
    apply (scanstring_shorter _ _ _ _ (Nat.le_refl _)) in Ek.
    pose proof (length_skip_ws s1) as Hw1.
    destruct (skip_ws s1) as [|c s2]; [discriminate H|].
    destruct (c =? 58); [|discriminate H].
    destruct (scan_once n (skip_ws s2)) as [[v1 s3]|] eqn:E; [|discriminate H].
    apply IHs in E. pose proof (length_skip_ws s2) as Hw2.
    pose proof (length_skip_ws s3) as Hw3.
    destruct (skip_ws s3) as [|d s4]; [discriminate H|].
    destruct (d =? 125); [injection H as _ <-; cbn [length] in *; lia|].
    destruct (d =? 44); [|discriminate H].
    pose proof (length_skip_ws s4) as Hw4.
    destruct (skip_ws s4) as [|q s5]; [discriminate H|].
    destruct (q =? 34); [|discriminate H].
    apply IHo in H. cbn [length] in *. lia.
Qed.

(** Fuel beyond twice the length of the text changes nothing. *)
Lemma scan_fuel n : forall m,
  (forall s, (2 * length s < n)%nat -> (2 * length s < m)%nat ->
     scan_once n s = scan_once m s)
  /\ (forall s acc, (2 * length s + 1 < n)%nat -> (2 * length s + 1 < m)%nat ->
        array_items n s acc = array_items m s acc)
  /\ (forall s acc, (2 * length s + 1 < n)%nat -> (2 * length s + 1 < m)%nat ->
        object_pairs n s acc = object_pairs m s acc).
Proof.
  induction n as [|n IH]; intros m; [repeat split; intros; lia|].
  destruct m as [|m]; [repeat split; intros; lia|].
  destruct (IH m) as [IHs [IHa IHo]]. clear IH.
  split; [|split].
  - intros s Hn Hm. destruct s as [|c r]; [reflexivity|].
    cbn [scan_once]. cbn [length] in Hn, Hm.
    destruct (c =? 34); [reflexivity|].
    pose proof (length_skip_ws r) as Hw.
    destruct (c =? 123).
    { destruct (skip_ws r) as [|d r']; [reflexivity|].
      destruct (d =? 125); [reflexivity|]. destruct (d =? 34); [|reflexivity].
      cbn [length] in Hw. apply IHo; lia. }
    destruct (c =? 91); [|reflexivity].
    destruct (skip_ws r) as [|d r']; [reflexivity|].
    destruct (d =? 93); [reflexivity|].
    cbn [length] in Hw. apply IHa; cbn [length]; lia.
  - intros s acc Hn Hm. cbn [array_items].
    rewrite (IHs s) by lia.
    destruct (scan_once m s) as [[v s1]|] eqn:E; [|reflexivity].
    apply (proj1 (scan_shorter m)) in E. pose proof (length_skip_ws s1) as Hw.
    destruct (skip_ws s1) as [|c s2]; [reflexivity|].
    destruct (c =? 93); [reflexivity|]. destruct (c =? 44); [|reflexivity].
    pose proof (length_skip_ws s2). cbn [length] in Hw. apply IHa; lia.
  - intros s acc Hn Hm. cbn [object_pairs].
    destruct (scanstring s) as [[key s1]|] eqn:Ek; [|reflexivity].
    apply (scanstring_shorter _ _ _ _ (Nat.le_refl _)) in Ek.
    pose proof (length_skip_ws s1) as Hw1.
    destruct (skip_ws s1) as [|c s2]; [reflexivity|].
    destruct (c =? 58); [|reflexivity].
    pose proof (length_skip_ws s2) as Hw2. cbn [length] in Hw1.
    rewrite (IHs (skip_ws s2)) by lia.
    destruct (scan_once m (skip_ws s2)) as [[v s3]|] eqn:E; [|reflexivity].
    apply (proj1 (scan_shorter m)) in E. pose proof (length_skip_ws s3) as Hw3.
    destruct (skip_ws s3) as [|d s4]; [reflexivity|].
    destruct (d =? 125); [reflexivity|]. destruct (d =? 44); [|reflexivity].
    pose proof (length_skip_ws s4) as Hw4.
    destruct (skip_ws s4) as [|q s5]; [reflexivity|].
    destruct (q =? 34); [|reflexivity].
    cbn [length] in Hw3, Hw4. apply IHo; lia.
Qed.

(** [loads] does not depend on its fuel: any larger amount reads the same
    value, or fails as well. *)
Lemma scan_once_fuel s n :
  (2 * length s < n)%nat ->
  scan_once n (skip_ws s) = scan_once (S (2 * length s)) (skip_ws s).
Proof.
  intros H. pose proof (length_skip_ws s).
  apply (proj1 (scan_fuel n (S (2 * length s)))); lia.
Qed.

(** *** What a write leaves in the file *)

Lemma encodable_escape_char c : encodable (escape_char c) = utf8_ok c.
Proof.
  unfold escape_char.
  repeat match goal with
  | |- context [N.eqb c ?k] => destruct (N.eqb_spec c k); [subst; reflexivity|]
  end.
  destruct (N.ltb_spec c 32) as [Hlt|Hge].
  - destruct c as [|p]; [reflexivity|].
    repeat (destruct p as [p|p|]; try reflexivity; try (exfalso; lia)).
  - unfold encodable. cbn [forallb]. apply andb_true_r.
Qed.

Lemma encodable_app a b : encodable (a ++ b) = encodable a && encodable b.
Proof. apply forallb_app. Qed.

Lemma encodable_basestring s : encodable (encode_basestring s) = encodable s.
Proof.
  unfold encode_basestring.
  change (34 :: flat_map escape_char s ++ [34])
    with ([34] ++ flat_map escape_char s ++ [34]).
  rewrite !encodable_app. change (encodable [34]) with true.
  rewrite andb_true_r. cbn [andb].
  induction s as [|c s IH]; [reflexivity|].
  cbn [flat_map]. rewrite encodable_app, encodable_escape_char, IH. reflexivity.
Qed.

Lemma write_chunks_app a b :
  write_chunks (a ++ b)
  = if forallb encodable a then concat a ++ write_chunks b else write_chunks a.
Proof.
  induction a as [|c a IH]; [reflexivity|].
  cbn [app write_chunks forallb concat]. destruct (encodable c); [|reflexivity].
  cbn [andb]. rewrite IH. destruct (forallb encodable a); [|reflexivity].
  apply app_assoc.
Qed.

Lemma write_chunks_all cs : forallb encodable cs = true -> write_chunks cs = concat cs.
Proof.
  intros H. rewrite <- (app_nil_r cs) at 1. rewrite write_chunks_app, H.
  apply app_nil_r.
Qed.

Lemma iterencode_turn t :
  iterencode 1 (turn_json t) =
  [[123]; newline_indent 2; encode_basestring (lit "time"); [58; 32];
   encode_basestring (time t);
   [44] ++ newline_indent 2; encode_basestring (lit "user"); [58; 32];
   encode_basestring (user t);
   [44] ++ newline_indent 2; encode_basestring (lit "ai"); [58; 32];
   encode_basestring (ai t);
   newline_indent 1; [125]].
Proof. destruct t. reflexivity. Qed.

Lemma concat_iterencode_turn t :
  concat (iterencode 1 (turn_json t)) = encode 1 (turn_json t).
Proof.
  rewrite iterencode_turn. destruct t as [tm us a].
  unfold turn_json. cbn [encode flat_map concat time user ai].
  repeat (rewrite <- ?app_assoc, ?app_cons_assoc, ?app_nil_r). reflexivity.
Qed.

Lemma encodable_iterencode_turn t :
  forallb encodable (iterencode 1 (turn_json t)) = storable_turn t.
Proof.
  rewrite iterencode_turn. cbn [forallb]. rewrite !encodable_basestring.
  unfold storable_turn.
  change (encodable [123]) with true. change (encodable (newline_indent 2)) with true.
  change (encodable (lit "time")) with true. change (encodable [58; 32]) with true.
  change (encodable ([44] ++ newline_indent 2)) with true.
  change (encodable (lit "user")) with true. change (encodable (lit "ai")) with true.
  change (encodable (newline_indent 1)) with true. change (encodable [125]) with true.
  cbn [andb]. rewrite andb_true_r, andb_assoc. reflexivity.
Qed.

Lemma iterencode_turns t l :
  iterencode 0 (turns_json (t :: l))
  = ([91] ++ newline_indent 1) :: iterencode 1 (turn_json t)
    ++ more_chunks l ++ [newline_indent 0; [93]].
Proof.
  unfold turns_json, more_chunks. cbn [map iterencode].
  assert (Ha : forall t0, atom (turn_json t0) = None) by (intros t0; reflexivity).
  rewrite Ha. cbn [app]. f_equal. f_equal. f_equal.
  induction l as [|t' l IH]; [reflexivity|].
  cbn [map flat_map]. rewrite Ha, IH. reflexivity.
Qed.

Lemma concat_more_chunks l : concat (more_chunks l) = more_items l.
Proof.
  unfold more_chunks, more_items. induction l as [|t l IH]; [reflexivity|].
  cbn [flat_map map]. rewrite concat_app. cbn [concat].
  rewrite concat_iterencode_turn, IH. rewrite <- !app_assoc. reflexivity.
Qed.

Lemma encodable_more_chunks l : forallb encodable (more_chunks l) = storable l.
Proof.
  unfold more_chunks, storable. induction l as [|t l IH]; [reflexivity|].
  cbn [flat_map]. rewrite forallb_app. cbn [forallb].
  change (encodable ([44] ++ newline_indent 1)) with true. cbn [andb].
  rewrite encodable_iterencode_turn. f_equal. exact IH.
Qed.

(** A log whose texts can all be encoded is written in full. *)
Lemma dump_turns l : storable l = true -> dump (turns_json l) = dumps (turns_json l).
Proof.
  intros H. destruct l as [|t l]; [reflexivity|].
  unfold dump. rewrite iterencode_turns.
  cbn [storable forallb] in H. apply andb_true_iff in H. destruct H as [Ht Hl].
  rewrite write_chunks_all.
  - cbn [concat]. rewrite !concat_app, concat_iterencode_turn, concat_more_chunks.
    rewrite dumps_turns. cbn [concat]. rewrite app_nil_r, <- !app_assoc. reflexivity.
  - cbn [forallb]. rewrite !forallb_app, encodable_iterencode_turn, encodable_more_chunks.
    unfold storable. rewrite Ht, Hl. reflexivity.
Qed.

(** What is left of a turn that cannot be encoded is not a JSON value: the
    text stops after the colon of the offending member. *)
Lemma scan_torn_turn t :
  storable_turn t = false ->
  forall n, scan_once n (write_chunks (iterencode 1 (turn_json t))) = None.
Proof.
  intros H n. rewrite iterencode_turn. destruct t as [tm us a].
  unfold storable_turn in H. cbn [time user ai] in *.
  cbn [write_chunks]. rewrite !encodable_basestring.
  change (encodable [123]) with true. change (encodable (newline_indent 2)) with true.
  change (encodable (lit "time")) with true. change (encodable [58; 32]) with true.
  change (encodable ([44] ++ newline_indent 2)) with true.
  change (encodable (lit "user")) with true. change (encodable (lit "ai")) with true.
  cbn iota. cbn [andb].
  destruct (encodable tm); cbn [andb] in H;
    [destruct (encodable us); cbn [andb] in H; [rewrite H|]|].
  all: cbn [app write_chunks]; unfold encode_basestring, newline_indent;
    cbn -[scanstring scan_once];
    repeat (rewrite <- ?app_assoc, ?app_cons_assoc); cbn [app];
    do 24 (try first [ reflexivity
                     | rewrite scanstring_escaped
                     | progress cbn
                     | destruct n as [|n]; [reflexivity|] ]).
Qed.

(** With too little fuel a turn is not read; with enough it is read whole. *)
Lemma scan_once_turn_any n t rest :
  scan_once n (encode 1 (turn_json t) ++ rest) = None
  \/ scan_once n (encode 1 (turn_json t) ++ rest) = Some (turn_json t, rest).
Proof.
  destruct (Nat.le_gt_cases 5 n) as [H|H].
  - right. replace n with (5 + (n - 5))%nat by lia. apply scan_once_turn.
  - destruct (scan_once n (encode 1 (turn_json t) ++ rest)) as [[v s]|] eqn:E;
      [|left; reflexivity].
    exfalso. destruct t as [tm us a].
    unfold turn_json, encode_basestring, newline_indent in *.
    cbn -[scanstring scan_once] in E.
    repeat (rewrite <- ?app_assoc, ?app_cons_assoc in E). cbn [app] in E.
    do 5 (destruct n as [|n]; [cbn in E; rewrite ?scanstring_escaped in E; cbn in E;
                               rewrite ?scanstring_escaped in E; cbn in E;
                               rewrite ?scanstring_escaped in E; cbn in E;
                               discriminate E|]).
    lia.
Qed.

Lemma write_chunks_turn t rest :
  write_chunks (iterencode 1 (turn_json t) ++ rest)
  = if storable_turn t then encode 1 (turn_json t) ++ write_chunks rest
    else write_chunks (iterencode 1 (turn_json t)).
Proof.
  rewrite write_chunks_app, encodable_iterencode_turn, concat_iterencode_turn.
  reflexivity.
Qed.

Lemma write_chunks_turn_head t rest : exists r,
  write_chunks (iterencode 1 (turn_json t) ++ rest) = 123 :: r.
Proof. rewrite iterencode_turn. eexists. reflexivity. Qed.

Lemma skip_ws_torn t rest :
  skip_ws (write_chunks (iterencode 1 (turn_json t) ++ rest))
  = write_chunks (iterencode 1 (turn_json t) ++ rest).
Proof. destruct (write_chunks_turn_head t rest) as [r ->]. reflexivity. Qed.

Lemma array_items_torn_turn t : storable_turn t = false -> forall n acc,
  array_items n (write_chunks (iterencode 1 (turn_json t))) acc = None.
Proof.
  intros H [|n] acc; [reflexivity|].
  cbn [array_items]. rewrite (scan_torn_turn t H). reflexivity.
Qed.

Lemma write_more_chunks t l rest :
  write_chunks (more_chunks (t :: l) ++ rest)
  = [44] ++ newline_indent 1
    ++ write_chunks (iterencode 1 (turn_json t) ++ more_chunks l ++ rest).
Proof.
  unfold more_chunks. cbn [flat_map]. rewrite <- app_assoc. reflexivity.
Qed.

(** The items of a log that holds a turn that cannot be encoded stop inside
    that turn, and are not read as a list. *)
Lemma array_items_torn l : storable l = false -> forall n acc,
  array_items n (write_chunks (iterencode 1 (turn_json (hd (mkTurn [] [] []) l))
                               ++ more_chunks (tl l) ++ [newline_indent 0; [93]])) acc
  = None.
Proof.
  induction l as [|t l IH]; [discriminate|].
  intros H n acc. cbn [hd tl]. rewrite write_chunks_turn.
  unfold storable in H. cbn [forallb] in H.
  destruct (storable_turn t) eqn:Ht; [|apply array_items_torn_turn; exact Ht].
  cbn [andb] in H. specialize (IH H).
  destruct l as [|t' l]; [discriminate H|]. cbn [hd tl] in IH.
  destruct n as [|n]; [reflexivity|]. cbn [array_items].
  destruct (scan_once_turn_any n t
              (write_chunks (more_chunks (t' :: l) ++ [newline_indent 0; [93]])))
    as [E|E]; rewrite E; [reflexivity|].
  rewrite write_more_chunks.
  cbn [app skip_ws is_ws N.eqb Pos.eqb orb].
  rewrite skip_ws_newline_indent, skip_ws_torn. apply IH.
Qed.

(** A save that fails part-way leaves a text that is not JSON. *)
Lemma loads_torn l : storable l = false -> loads (dump (turns_json l)) = None.
Proof.
  intros H. destruct l as [|t l]; [discriminate H|].
  unfold dump. rewrite iterencode_turns.
  cbn [write_chunks]. change (encodable ([91] ++ newline_indent 1)) with true.
  cbn iota.
  pose proof (array_items_torn (t :: l) H) as Ha. cbn [hd tl] in Ha.
  destruct (write_chunks_turn_head t (more_chunks l ++ [newline_indent 0; [93]]))
    as [r Hr].
  rewrite Hr in Ha. rewrite Hr. unfold loads.
  match goal with |- context [scan_once (S ?f) _] => generalize f end.
  intros n. cbn [app skip_ws is_ws N.eqb Pos.eqb orb scan_once].
  rewrite skip_ws_newline_indent.
  cbn [skip_ws is_ws N.eqb Pos.eqb orb]. rewrite Ha. reflexivity.
Qed.

(** The chunks put together are the text of [encode], for every value. *)
Lemma concat_iterencode v : forall level, concat (iterencode level v) = encode level v.
Proof.
  induction v as [|[|]|l|s|items IH|fields IH] using value_induction; intros level;
    try (cbn; rewrite ?app_nil_r; reflexivity).
  - destruct items as [|x xs]; [reflexivity|].
    cbn [iterencode encode].
    assert (Hitem : forall b y, (forall lv, concat (iterencode lv y) = encode lv y) ->
      concat (match atom y with
              | Some text => [[b] ++ newline_indent (S level) ++ text]
              | None => ([b] ++ newline_indent (S level)) :: iterencode (S level) y
              end) = [b] ++ newline_indent (S level) ++ encode (S level) y).
    { intros b y Hy. destruct y as [|[|]|l|s|i|f]; cbn [atom concat];
        rewrite ?app_nil_r; try reflexivity; rewrite Hy, <- app_assoc; reflexivity. }
    inversion IH as [|x' xs' Hx Hxs]; subst.
    rewrite !concat_app, (Hitem _ _ Hx), <- !app_assoc.
    f_equal. f_equal. f_equal. f_equal.
    clear IH Hx. induction Hxs as [|y xs Hy _ IHxs]; [reflexivity|].
    cbn [flat_map]. rewrite concat_app, IHxs, (Hitem _ _ Hy), <- !app_assoc. reflexivity.
  - destruct fields as [|[k x] fs]; [reflexivity|].
    inversion IH as [|kv fs' Hx Hfs]; subst. cbn [snd] in Hx.
    cbn [iterencode encode]. rewrite !concat_app, Hx.
    replace (concat [[123]; newline_indent (S level); encode_basestring k; [58; 32]])
      with ([123] ++ newline_indent (S level) ++ encode_basestring k ++ [58; 32])
      by (cbn [concat]; rewrite app_nil_r; reflexivity).
    replace (concat [newline_indent level; [125]]) with (newline_indent level ++ [125])
      by (cbn [concat]; rewrite app_nil_r; reflexivity).
    rewrite <- !app_assoc. do 6 f_equal.
    clear IH Hx. induction Hfs as [|[k' y] fs Hy _ IHfs]; [reflexivity|]. cbn [snd] in Hy.
    cbn [flat_map]. rewrite !concat_app, IHfs, Hy.
    replace (concat [[44] ++ newline_indent (S level); encode_basestring k'; [58; 32]])
      with ([44] ++ newline_indent (S level) ++ encode_basestring k' ++ [58; 32])
      by (cbn [concat]; rewrite app_nil_r, <- !app_assoc; reflexivity).
    rewrite <- !app_assoc. reflexivity.
Qed.

(** When every chunk can be encoded the file holds the whole text. *)
Lemma dump_encodable v :
  forallb encodable (iterencode 0 v) = true -> dump v = dumps v.
Proof.
  intros H. unfold dump, dumps. rewrite (write_chunks_all _ H). apply concat_iterencode.
Qed.

(** An integer literal of more than 4300 digits is refused, as [int()]
    refuses it; a number with a fraction is not an integer literal. *)
Example loads_long_integer :
  loads (repeat 49 4300) = Some (JNum (repeat 49 4300))
  /\ loads (repeat 49 4301) = None
  /\ loads (45 :: repeat 49 4300) = Some (JNum (45 :: repeat 49 4300))
  /\ loads (repeat 49 4301 ++ lit ".5") = Some (JNum (repeat 49 4301 ++ lit ".5")).
Proof. vm_compute. repeat split. Qed.

End JsonFacts.

(** ** The conversation log *)

Section SliceLast.
Context {A : Type}.
Implicit Types l : list A.

Lemma slice_last_short n l : (length l <= n)%nat -> slice_last n l = l.
Proof.
  intros H. unfold slice_last. replace (length l - n)%nat with 0%nat by lia.
  reflexivity.
Qed.

Lemma length_slice_last n l : (n <= length l)%nat -> length (slice_last n l) = n.
Proof. intros H. unfold slice_last. rewrite length_skipn. lia. Qed.

Lemma slice_last_app n l1 l2 :
  (n <= length l2)%nat -> slice_last n (l1 ++ l2) = slice_last n l2.
Proof.
  intros H. unfold slice_last. rewrite length_app, skipn_app.
  rewrite skipn_all2 by lia. cbn [app]. f_equal. lia.
Qed.

Lemma slice_last_absorb n l1 l2 :
  slice_last n (slice_last n l1 ++ l2) = slice_last n (l1 ++ l2).
Proof.
  destruct (Nat.le_gt_cases (length l1) n) as [Hle|Hgt].
  - rewrite (slice_last_short n l1 Hle). reflexivity.
  - unfold slice_last at 1 3. rewrite !length_app, !skipn_app.
    rewrite (length_slice_last n l1) by lia.
    unfold slice_last. rewrite skipn_skipn.
    f_equal; f_equal; lia.
Qed.

Lemma slice_last_map {B} (f : A -> B) n l :
  slice_last n (map f l) = map f (slice_last n l).
Proof. unfold slice_last. rewrite length_map, skipn_map. reflexivity. Qed.

Lemma slice_last_snoc n l x :
  (0 < n)%nat -> slice_last n (l ++ [x]) = slice_last (n - 1) l ++ [x].
Proof.
  intros Hn. unfold slice_last. rewrite length_app, skipn_app. cbn [length].
  replace (length l + 1 - n - length l)%nat with 0%nat by lia.
  cbn [skipn]. f_equal. f_equal. lia.
Qed.

End SliceLast.

Lemma capped_slice_last {A} (l : list A) : capped l = slice_last HISTORY_CAP l.
Proof.
  unfold capped. destruct (Nat.ltb_spec HISTORY_CAP (length l)); [reflexivity|].
  symmetry. apply slice_last_short. assumption.
Qed.

Lemma storable_app a b : storable (a ++ b) = storable a && storable b.
Proof. apply forallb_app. Qed.

Lemma storable_slice_last n l : storable l = true -> storable (slice_last n l) = true.
Proof.
  unfold slice_last. intros H.
  rewrite <- (firstn_skipn (length l - n) l), storable_app in H.
  apply andb_true_iff in H. apply H.
Qed.

(** What a save leaves to the next load: the log, or nothing when a text of
    the log could not be encoded. *)
Lemma load_save fs l :
  writable fs = true ->
  load_history (save_history (turns_json l) fs)
  = if storable l then turns_json l else JArr [].
Proof.
  intros Hw. unfold save_history, load_history. rewrite Hw. cbn [history_file].
  destruct (storable l) eqn:E.
  - rewrite (dump_turns l E), loads_dumps_turns. reflexivity.
  - rewrite (loads_torn l E). reflexivity.
Qed.

Lemma writable_save v fs : writable (save_history v fs) = writable fs.
Proof. unfold save_history. destruct (writable fs) eqn:E; [reflexivity|exact E]. Qed.

Lemma record_turn_spec fs h t :
  load_history fs = turns_json h ->
  record_turn t fs = Some (save_history (turns_json (slice_last HISTORY_CAP (h ++ [t]))) fs).
Proof.
  intros Hl. unfold record_turn. rewrite Hl. unfold turns_json at 1.
  change (map turn_json h ++ [turn_json t]) with (map turn_json h ++ map turn_json [t]).
  rewrite <- map_app. fold (capped (map turn_json (h ++ [t]))).
  rewrite capped_slice_last, slice_last_map. reflexivity.
Qed.

(** The effect of a sequence of appends on a log [h]: once a turn has been
    appended the file holds the last 100 entries of [h] followed by the
    appended turns. *)
Lemma record_turns_spec ts : forall fs h t,
  writable fs = true ->
  load_history fs = turns_json h ->
  storable (h ++ t :: ts) = true ->
  exists fs',
    record_turns (t :: ts) fs = Some fs'
    /\ writable fs' = true
    /\ history_file fs' = Content (dumps (turns_json (slice_last HISTORY_CAP (h ++ t :: ts))))
    /\ load_history fs' = turns_json (slice_last HISTORY_CAP (h ++ t :: ts)).
Proof.
  induction ts as [|t' ts IH]; intros fs h t Hw Hl Hs.
  - cbn [record_turns]. rewrite (record_turn_spec fs h t Hl).
    pose proof (storable_slice_last HISTORY_CAP _ Hs) as Hc.
    eexists. split; [reflexivity|]. split; [rewrite writable_save; exact Hw|].
    split.
    + unfold save_history. rewrite Hw, (dump_turns _ Hc). reflexivity.
    + rewrite (load_save _ _ Hw), Hc. reflexivity.
  - cbn [record_turns]. rewrite (record_turn_spec fs h t Hl).
    set (fs1 := save_history _ fs).
    assert (Hs1 : storable (h ++ [t]) = true /\ storable (t' :: ts) = true).
    { change (t :: t' :: ts) with ([t] ++ t' :: ts) in Hs.
      rewrite app_assoc, storable_app in Hs. apply andb_true_iff in Hs. exact Hs. }
    destruct Hs1 as [Hht Hts].
    pose proof (storable_slice_last HISTORY_CAP _ Hht) as Hc.
    assert (Hw1 : writable fs1 = true) by (unfold fs1; rewrite writable_save; exact Hw).
    assert (Hl1 : load_history fs1 = turns_json (slice_last HISTORY_CAP (h ++ [t])))
      by (unfold fs1; rewrite (load_save _ _ Hw), Hc; reflexivity).
    assert (Hs2 : storable (slice_last HISTORY_CAP (h ++ [t]) ++ t' :: ts) = true)
      by (rewrite storable_app, Hc, Hts; reflexivity).
    destruct (IH fs1 _ t' Hw1 Hl1 Hs2) as [fs' [Hr [Hw' [Hf' Hl']]]].
    cbn [record_turns] in Hr.
    assert (E : slice_last HISTORY_CAP (slice_last HISTORY_CAP (h ++ [t]) ++ t' :: ts)
                = slice_last HISTORY_CAP (h ++ t :: t' :: ts)).
    { rewrite slice_last_absorb, <- app_assoc. reflexivity. }
    exists fs'. rewrite <- E. auto.
Qed.

(** C2, with the failing input.  Starting from any stored log [h], once
    more than 100 turns [ts] whose texts can be encoded as UTF-8 have been
    appended the file holds exactly the last 100 of them, oldest first; and
    one such turn appended to a log of fewer than 100 such turns is stored
    last, the log one entry longer.  But an append of a turn that holds a
    code point UTF-8 cannot encode (a lone surrogate) loses the log: the
    file is emptied, the write stops at that text, and what is left reads
    back as no turn at all, whatever the log held before. *)
Theorem history_capped fs h ts t :
  writable fs = true ->
  load_history fs = turns_json h ->
  (storable ts = true -> (HISTORY_CAP < length ts)%nat ->
     exists fs',
       record_turns ts fs = Some fs'
       /\ history_file fs' = Content (dumps (turns_json (slice_last HISTORY_CAP ts)))
       /\ load_history fs' = turns_json (slice_last HISTORY_CAP ts)
       /\ length (slice_last HISTORY_CAP ts) = HISTORY_CAP)
  /\ (storable h = true -> storable_turn t = true -> (length h < HISTORY_CAP)%nat ->
     exists fs',
       record_turn t fs = Some fs'
       /\ load_history fs' = turns_json (h ++ [t])
       /\ length (h ++ [t]) = S (length h))
  /\ (storable_turn t = false ->
     exists fs',
       record_turn t fs = Some fs'
       /\ load_history fs' = JArr []
       /\ load_history fs' <> turns_json (slice_last HISTORY_CAP (h ++ [t]))).
Proof.
  intros Hw Hl. split; [|split].
  - intros Hts Hlen. pose proof (eq_refl : HISTORY_CAP = 100%nat) as Hcap.
    destruct ts as [|t1 [|t2 ts]]; [cbn [length] in Hlen; lia..|].
    cbn [record_turns]. rewrite (record_turn_spec fs h t1 Hl).
    set (kept := slice_last HISTORY_CAP (h ++ [t1])).
    set (fs1 := save_history (turns_json kept) fs).
    set (h1 := if storable kept then kept else []).
    assert (Hw1 : writable fs1 = true) by (unfold fs1; rewrite writable_save; exact Hw).
    assert (Hl1 : load_history fs1 = turns_json h1).
    { unfold fs1, h1. rewrite (load_save _ _ Hw). destruct (storable kept); reflexivity. }
    assert (Hs : storable (h1 ++ t2 :: ts) = true).
    { unfold storable in Hts. cbn [forallb] in Hts. apply andb_true_iff in Hts.
      destruct Hts as [_ Hts]. rewrite storable_app. unfold storable at 2.
      unfold h1. cbn [forallb]. rewrite Hts.
      destruct (storable kept) eqn:E; [rewrite E|]; reflexivity. }
    destruct (record_turns_spec ts fs1 h1 t2 Hw1 Hl1 Hs) as [fs' [Hr [_ [Hf Hl']]]].
    cbn [record_turns] in Hr.
    assert (Hlast : slice_last HISTORY_CAP (h1 ++ t2 :: ts)
                    = slice_last HISTORY_CAP (t1 :: t2 :: ts)).
    { rewrite slice_last_app by (cbn [length] in *; lia).
      symmetry. apply (slice_last_app HISTORY_CAP [t1] (t2 :: ts)).
      cbn [length] in *. lia. }
    rewrite Hlast in Hf, Hl'.
    exists fs'. repeat split; try assumption.
    apply length_slice_last. cbn [length] in *. lia.
  - intros Hh Ht Hlen. rewrite (record_turn_spec fs h t Hl).
    eexists. split; [reflexivity|].
    rewrite (load_save _ _ Hw).
    rewrite slice_last_short by (rewrite length_app; cbn [length]; unfold HISTORY_CAP in *; lia).
    rewrite storable_app, Hh. unfold storable at 1. cbn [forallb]. rewrite Ht.
    split; [reflexivity|]. rewrite length_app. cbn [length]. lia.
  - intros Ht. rewrite (record_turn_spec fs h t Hl).
    eexists. split; [reflexivity|].
    assert (Hs : storable (slice_last HISTORY_CAP (h ++ [t])) = false).
    { rewrite slice_last_snoc by (unfold HISTORY_CAP; lia).
      rewrite storable_app. unfold storable at 2. cbn [forallb]. rewrite Ht.
      apply andb_false_r. }
    rewrite (load_save _ _ Hw), Hs. split; [reflexivity|].
    rewrite slice_last_snoc by (unfold HISTORY_CAP; lia).
    unfold turns_json. rewrite map_app. intros E. injection E as E.
    symmetry in E. apply app_eq_nil in E. destruct E as [_ E]. discriminate E.
Qed.

Lemma history_capped_witness :
  (exists fs',
     record_turns Sample.many Sample.fs_empty = Some fs'
     /\ history_file fs' = Content (dumps (turns_json (slice_last HISTORY_CAP Sample.many)))
     /\ load_history fs' = turns_json (slice_last HISTORY_CAP Sample.many)
     /\ length (slice_last HISTORY_CAP Sample.many) = HISTORY_CAP)
  /\ (exists fs',
     record_turn (Sample.turn_n 7) Sample.fs_empty = Some fs'
     /\ load_history fs' = turns_json ([] ++ [Sample.turn_n 7])
     /\ length ([] ++ [Sample.turn_n 7]) = 1%nat)
  /\ (exists fs',
     record_turn Cases.turn_lone Cases.fs_two = Some fs'
     /\ load_history fs' = JArr []
     /\ load_history fs'
        <> turns_json (slice_last HISTORY_CAP (Cases.two_turns ++ [Cases.turn_lone]))).
Proof.
  destruct (history_capped Sample.fs_empty [] Sample.many (Sample.turn_n 7)
              eq_refl eq_refl) as [A [B _]].
  destruct (history_capped Cases.fs_two Cases.two_turns [] Cases.turn_lone
              eq_refl eq_refl) as [_ [_ C]].
  split; [|split].
  - apply A; [reflexivity|]. vm_compute. lia.
  - apply B; [reflexivity|reflexivity|]. vm_compute. lia.
  - apply C. reflexivity.
Defined.

(** C6, with the failing input.  Storing a sequence of turns within the cap
    and loading it again gives the same sequence when every text of it can be
    encoded as UTF-8; a sequence that holds a lone surrogate is lost instead:
    what was stored reads back as the empty log.  (The file must be one that
    can be opened for writing.) *)
Theorem load_save_roundtrip fs turns :
  writable fs = true ->
  (length turns <= HISTORY_CAP)%nat ->
  load_history (save_history (turns_json turns) fs)
  = if storable turns then turns_json turns else JArr [].
Proof. intros Hw _. apply load_save. exact Hw. Qed.

Lemma load_save_roundtrip_witness :
  load_history (save_history (turns_json [Sample.turn_n 3; Sample.turn_n 0]) Sample.fs_empty)
  = turns_json [Sample.turn_n 3; Sample.turn_n 0]
  /\ load_history (save_history (turns_json [Sample.turn_n 3; Cases.turn_lone])
                     Sample.fs_empty)
     = JArr [].
Proof.
  split.
  - apply (load_save_roundtrip Sample.fs_empty [Sample.turn_n 3; Sample.turn_n 0]).
    + reflexivity.
    + vm_compute. lia.
  - apply (load_save_roundtrip Sample.fs_empty [Sample.turn_n 3; Cases.turn_lone]).
    + reflexivity.
    + vm_compute. lia.
Defined.

(** *** Texts that are not JSON *)






(** ** The dispatcher and the controller *)
Section BubbleFacts.
Import ChatBubble.

Lemma requests_send_result env prompt l w :
  requests (final (send_result env prompt l w)) = requests w.
Proof.
  unfold send_result.
  destruct (truthy_opt (answer l)); [|reflexivity].
  destruct (record_turn _ _); [|reflexivity].
  destruct (_ && _); unfold say; cbn; destruct (has_voice w); reflexivity.
Qed.

(** After the first [try], [answer] is truthy exactly when the agent
    endpoint replied. *)
Lemma agent_replied_answer r : truthy_opt (answer (try_agent r)) = agent_replied r.
Proof.
  destruct r as [e|s [b|e]]; try reflexivity; cbn [try_agent agent_replied];
    destruct (s =? 200); try reflexivity.
  cbn [answer truthy_opt andb]. destruct (r_response b); reflexivity.
Qed.

Lemma call_llm_dispatch env prompt w :
  let sp := system_prompt (context env) in
  let w1 := post (PostChat (sp ++ USER_HEAD ++ prompt)) w in
  let w2 := if agent_replied (primary env) then w1 else post (PostOllama sp prompt) w1 in
  _call_llm env prompt w =
  match dispatch env with
  | Some l => send_result env prompt l w2
  | None => Returned (_update_response MSG_UNREACHABLE
                        (log_signal (response_ready MSG_UNREACHABLE) w2))
  end.
Proof.
  unfold _call_llm, dispatch. rewrite <- agent_replied_answer.
  destruct (truthy_opt (answer (try_agent (primary env)))) eqn:Ha; cbn [negb].
  - destruct (try_agent (primary env)); reflexivity.
  - destruct (fallback env) as [e|s [b|e]]; [reflexivity| |].
    + destruct (s =? 200); [reflexivity|].
      destruct (try_agent (primary env)); reflexivity.
    + destruct (s =? 200); [reflexivity|].
      destruct (try_agent (primary env)); reflexivity.
Qed.

(** C3. One run of [_call_llm] posts to the agent endpoint and then, exactly
    when the agent produced no reply, once to the fallback model: no fallback
    call after a non-empty agent reply, exactly one otherwise.  The agent
    produced a reply exactly when its HTTP response has status 200 and a body
    that decodes with a non-empty [response]; a call that raises, any other
    status, a body that does not decode, a missing or an empty [response]
    all count as no reply. *)
Theorem fallback_invoked_iff_agent_silent env prompt w :
  let w' := final (_call_llm env prompt w) in
  let sp := system_prompt (context env) in
  requests w' =
    requests w ++ PostChat (sp ++ USER_HEAD ++ prompt)
    :: (if agent_replied (primary env) then [] else [PostOllama sp prompt])
  /\ fallback_calls w' =
     (fallback_calls w + if agent_replied (primary env) then 0 else 1)%nat
  /\ (agent_replied (primary env) = true <->
      exists body c a,
        primary env = Response 200 (Json body) /\ r_response body = Some (c :: a)).
Proof.
  cbn zeta.
  assert (Hraw : agent_replied (primary env) = true <->
      exists body c a,
        primary env = Response 200 (Json body) /\ r_response body = Some (c :: a)).
  { split.
    - destruct (primary env) as [e|s [b|e]]; cbn [agent_replied]; try discriminate.
      intros H. apply andb_true_iff in H. destruct H as [Hs Hb].
      apply N.eqb_eq in Hs. subst s.
      destruct (r_response b) as [[|c a]|] eqn:E; try discriminate.
      exists b, c, a. split; [reflexivity|exact E].
    - intros [body [c [a [-> E]]]]. cbn [agent_replied]. rewrite E. reflexivity. }
  assert (E : requests (final (_call_llm env prompt w)) =
    requests w ++ PostChat (system_prompt (context env) ++ USER_HEAD ++ prompt)
    :: (if agent_replied (primary env) then []
        else [PostOllama (system_prompt (context env)) prompt])).
  { rewrite call_llm_dispatch. cbn zeta.
    destruct (dispatch env).
    - rewrite requests_send_result. destruct (agent_replied (primary env)); cbn.
      + reflexivity.
      + rewrite <- app_assoc. reflexivity.
    - destruct (agent_replied (primary env)); cbn.
      + reflexivity.
      + rewrite <- app_assoc. reflexivity. }
  split; [exact E|]. split; [|exact Hraw].
  unfold fallback_calls. rewrite E, filter_app, length_app.
  destruct (agent_replied (primary env)); cbn; lia.
Qed.

Lemma eqb_str_eq a : forall b, eqb_str a b = true <-> a = b.
Proof.
  induction a as [|x a IH]; intros [|y b]; cbn [eqb_str]; split; intros H;
    try reflexivity; try discriminate.
  - apply andb_true_iff in H. destruct H as [H1 H2].
    apply N.eqb_eq in H1. apply IH in H2. subst. reflexivity.
  - injection H as -> ->. apply andb_true_iff. split.
    + apply N.eqb_refl.
    + apply IH. reflexivity.
Qed.

Lemma dispatch_silent env :
  agent_replied (primary env) = false ->
  fallback_replied (fallback env) = false ->
  if fallback_raised (fallback env) then dispatch env = None
  else exists l, dispatch env = Some l /\ truthy_opt (answer l) = false.
Proof.
  intros Ha Hf. rewrite <- agent_replied_answer in Ha. unfold dispatch. rewrite Ha.
  destruct (fallback env) as [e|s [b|e]]; cbn [fallback_raised]; [reflexivity| |].
  - cbn [fallback_replied] in Hf. destruct (s =? 200); cbn [andb] in Hf.
    + eexists. split; [reflexivity|]. cbn [answer truthy_opt].
      destruct (r_message b) as [m|]; [|reflexivity].
      destruct (r_content m); [exact Hf|reflexivity].
    + eexists. split; [reflexivity|]. exact Ha.
  - destruct (s =? 200); [reflexivity|].
    eexists. split; [reflexivity|]. exact Ha.
Qed.

(** C1, amended. When neither backend produces a reply the run returns
    after showing a fixed message -- the connectivity error when the fallback
    call raised, the "don't know what to say" text when it answered without a
    reply -- and the stored log is left as it was. *)
Theorem both_backends_fail env prompt w :
  agent_replied (primary env) = false ->
  fallback_replied (fallback env) = false ->
  let text := if fallback_raised (fallback env) then MSG_UNREACHABLE else MSG_SPEECHLESS in
  exists w',
    _call_llm env prompt w = Returned w'
    /\ response_label w' = text
    /\ emitted w' = emitted w ++ [response_ready text]
    /\ disk w' = disk w.
Proof.
  intros Ha Hf text. subst text. rewrite call_llm_dispatch. cbn zeta. rewrite Ha.
  pose proof (dispatch_silent env Ha Hf) as Hd.
  destruct (fallback_raised (fallback env)).
  - rewrite Hd. eexists. split; [reflexivity|]. repeat split.
  - destruct Hd as [l [Hd Hl]]. rewrite Hd. unfold send_result. rewrite Hl.
    eexists. split; [reflexivity|]. repeat split.
Qed.

Lemma dispatch_agent_answers env l :
  dispatch env = Some l ->
  eqb_str (mode l) (lit "agent") = true ->
  truthy_opt (answer l) = true.
Proof.
  unfold dispatch.
  destruct (truthy_opt (answer (try_agent (primary env)))) eqn:Ha.
  - intros [= <-] _. exact Ha.
  - destruct (fallback env) as [e|s [b|e]]; [discriminate| |].
    + destruct (s =? 200); intros [= <-]; cbn; discriminate.
    + destruct (s =? 200); [discriminate|]. intros [= <-]; cbn; discriminate.
Qed.

Lemma send_result_confirm env prompt l w h p :
  load_history (disk w) = JArr h ->
  truthy_opt (answer l) = true ->
  l_pending_code l = Some p -> truthy p = true -> mode l = lit "agent" ->
  exists w',
    send_result env prompt l w = Returned w'
    /\ routed w w' (text_of (answer l)) p.
Proof.
  intros Hh Ha Hp Ht Hm. unfold send_result, record_turn.
  rewrite Ha, Hh, Hp, Hm. cbn [truthy_opt]. rewrite Ht. cbn [eqb_str andb].
  eexists. split; [reflexivity|].
  unfold routed, say. destruct (has_voice _); cbn; repeat split.
Qed.

Lemma send_result_plain env prompt l w h :
  load_history (disk w) = JArr h ->
  truthy_opt (l_pending_code l) && eqb_str (mode l) (lit "agent") = false ->
  exists w' text,
    send_result env prompt l w = Returned w'
    /\ emitted w' = emitted w ++ [response_ready text]
    /\ response_label w' = text
    /\ pending_code w' = pending_code w
    /\ confirm_shown w' = confirm_shown w
    /\ (truthy_opt (answer l) = true ->
        text = mode_label (mode l) ++ lit " " ++ text_of (answer l)).
Proof.
  intros Hh Hc. unfold send_result, record_turn. rewrite Hh, Hc.
  destruct (truthy_opt (answer l)).
  - eexists. eexists. split; [reflexivity|].
    unfold say. destruct (has_voice _); cbn; repeat split.
  - eexists. eexists. split; [reflexivity|]. cbn. repeat split. discriminate.
Qed.

Lemma posted_frame env prompt w :
  let sp := system_prompt (context env) in
  let w1 := post (PostChat (sp ++ USER_HEAD ++ prompt)) w in
  let w2 := if agent_replied (primary env) then w1 else post (PostOllama sp prompt) w1 in
  disk w2 = disk w /\ emitted w2 = emitted w
  /\ pending_code w2 = pending_code w /\ confirm_shown w2 = confirm_shown w.
Proof. cbn zeta. destruct (agent_replied _); repeat split. Qed.

(** C4. With a well-formed log file, the run enters the confirmation state
    if and only if the dispatch result has mode "agent" and a non-empty action
    payload; in every other case the payload is ignored: the pending action
    and the buttons are untouched and the reply is shown as plain text. *)
Theorem pending_action_routing env prompt w l h :
  dispatch env = Some l ->
  load_history (disk w) = JArr h ->
  exists w',
    _call_llm env prompt w = Returned w'
    /\ ((exists a p, routed w w' a p)
        <-> (mode l = lit "agent" /\ truthy_opt (l_pending_code l) = true))
    /\ (forall p, mode l = lit "agent" -> l_pending_code l = Some p -> truthy p = true ->
          routed w w' (text_of (answer l)) p)
    /\ (mode l <> lit "agent" \/ truthy_opt (l_pending_code l) = false ->
          pending_code w' = pending_code w
          /\ confirm_shown w' = confirm_shown w
          /\ exists text,
               emitted w' = emitted w ++ [response_ready text]
               /\ response_label w' = text
               /\ (truthy_opt (answer l) = true ->
                   text = mode_label (mode l) ++ lit " " ++ text_of (answer l))).
Proof.
  intros Hd Hh. rewrite call_llm_dispatch, Hd.
  destruct (posted_frame env prompt w) as [Hdisk [Hem [Hpc Hcs]]].
  cbn zeta in *.
  set (w2 := if agent_replied (primary env) then _ else _) in *. clearbody w2.
  rewrite <- Hdisk in Hh.
  destruct (truthy_opt (l_pending_code l) && eqb_str (mode l) (lit "agent")) eqn:Hc.
  - apply andb_true_iff in Hc. destruct Hc as [Hp Hm].
    pose proof (dispatch_agent_answers env l Hd Hm) as Ha.
    apply eqb_str_eq in Hm.
    destruct (l_pending_code l) as [p|] eqn:Hlp; [|discriminate].
    destruct (send_result_confirm env prompt l w2 h p Hh Ha Hlp Hp Hm) as [w' [Hr R]].
    assert (R' : routed w w' (text_of (answer l)) p).
    { unfold routed in *. rewrite <- Hem. exact R. }
    exists w'. split; [exact Hr|]. split; [|split].
    + split; [intros _; split; [exact Hm|exact Hp]|].
      intros _. exists (text_of (answer l)), p. exact R'.
    + intros p' _ [= <-] _. exact R'.
    + intros [Hne|Hf]; [contradiction|]. cbn [truthy_opt] in Hf, Hp. congruence.
  - destruct (send_result_plain env prompt l w2 h Hh Hc)
      as [w' [text [Hr [He [Hl [Hp [Hs Ht]]]]]]].
    exists w'. split; [exact Hr|]. split; [|split].
    + split.
      * intros [a [p [He' _]]]. rewrite He, Hem in He'.
        apply app_inv_head in He'. discriminate.
      * intros [Hm Hp']. rewrite Hp' in Hc. cbn [andb] in Hc.
        apply eqb_str_eq in Hm. congruence.
    + intros p Hm Hlp Hp'. rewrite Hlp in Hc. cbn [truthy_opt] in Hc.
      rewrite Hp' in Hc. cbn [andb] in Hc. apply eqb_str_eq in Hm. congruence.
    + intros _. rewrite Hp, Hs, Hpc, Hcs. split; [reflexivity|]. split; [reflexivity|].
      exists text. rewrite He, Hem. auto.
Qed.

(** What one run does to the history file: the turn is recorded exactly when
    a reply was obtained. *)
Lemma call_llm_disk env prompt w :
  disk (final (_call_llm env prompt w)) =
  match dispatch env with
  | Some l =>
      if truthy_opt (answer l) then
        match record_turn (mkTurn (now env) prompt (slice_to 200 (text_of (answer l))))
                          (disk w) with
        | Some d => d
        | None => disk w
        end
      else disk w
  | None => disk w
  end.
Proof.
  rewrite call_llm_dispatch.
  destruct (posted_frame env prompt w) as [Hdisk _]. cbn zeta in *.
  set (w2 := if agent_replied (primary env) then _ else _) in *. clearbody w2.
  destruct (dispatch env) as [l|]; [|exact Hdisk].
  unfold send_result. rewrite Hdisk.
  destruct (truthy_opt (answer l)); [|exact Hdisk].
  destruct (record_turn _ (disk w)); [|exact Hdisk].
  destruct (_ && _); unfold say; cbn; destruct (has_voice w2); reflexivity.
Qed.

(** A run that obtains a reply appends one turn, the reply cut to 200 code
    points, and keeps the last 100. *)
Lemma call_llm_appends env prompt w h l :
  dispatch env = Some l ->
  truthy_opt (answer l) = true ->
  writable (disk w) = true ->
  load_history (disk w) = turns_json h ->
  let kept := slice_last HISTORY_CAP
      (h ++ [mkTurn (now env) prompt (slice_to 200 (text_of (answer l)))]) in
  load_history (disk (final (_call_llm env prompt w)))
  = if storable kept then turns_json kept else JArr [].
Proof.
  intros Hd Ha Hw Hl. cbn zeta. rewrite call_llm_disk, Hd, Ha.
  rewrite (record_turn_spec (disk w) h _ Hl).
  apply load_save. exact Hw.
Qed.

(** *** Confirm and cancel *)

Lemma confirm_clears exec w :
  pending_code w <> Some [] -> pending_code (_on_confirm_execute exec w) = None.
Proof.
  intros H. unfold _on_confirm_execute.
  destruct (pending_code w) as [[|kv p]|] eqn:E; [contradiction| |exact E].
  unfold say, _hide_confirm_buttons. cbn. destruct (has_voice _); reflexivity.
Qed.

Lemma disk_confirm exec w : disk (_on_confirm_execute exec w) = disk w.
Proof.
  unfold _on_confirm_execute.
  destruct (pending_code w) as [[|kv p]|]; try reflexivity.
  unfold say, _hide_confirm_buttons.
  destruct (get (lit "language") (kv :: p)) as [language|];
    [destruct (get (lit "code") (kv :: p)) as [code|];
      [destruct exec as [e|s [b|e]]; [|destruct (s =? 200)..]|]|];
    cbn; destruct (has_voice w); reflexivity.
Qed.

Lemma pending_send_message w : pending_code (send_message w) = pending_code w.
Proof. unfold send_message. destruct (negb _); reflexivity. Qed.

Lemma pending_on_voice_text t w : pending_code (_on_voice_text t w) = pending_code w.
Proof.
  unfold _on_voice_text. destruct (truthy t); [|reflexivity].
  rewrite pending_send_message. reflexivity.
Qed.

(** *** The input field *)

Lemma isspace_bmp c : isspace c = true -> (c <? 65536) = true.
Proof.
  intros H. destruct (N.ltb_spec c 65536) as [Hlt|Hge]; [reflexivity|].
  exfalso. unfold isspace in H.
  repeat (apply orb_true_iff in H; destruct H as [H|H]);
    try (apply andb_true_iff in H; destruct H as [H1 H2];
         apply N.leb_le in H1; apply N.leb_le in H2; lia);
    try (apply N.eqb_eq in H; lia).
Qed.

(** What the field keeps of a blank text is blank. *)
Lemma left_blank s : forall n,
  forallb isspace s = true -> forallb isspace (qstring_left n s) = true.
Proof.
  induction s as [|c s IH]; intros n H; [reflexivity|].
  cbn [forallb] in H. apply andb_true_iff in H. destruct H as [Hc Hs].
  cbn [qstring_left]. destruct (n =? 0); [reflexivity|].
  rewrite (isspace_bmp c Hc). cbn [forallb]. rewrite Hc. apply IH. exact Hs.
Qed.

(** A text of at most [n] UTF-16 code units is kept whole. *)
Lemma left_fits s : forall n, utf16_length s <= n -> qstring_left n s = s.
Proof.
  induction s as [|c s IH]; intros n H; [reflexivity|].
  unfold utf16_length in H. cbn [fold_right] in H. fold (utf16_length s) in H.
  cbn [qstring_left].
  destruct (N.eqb_spec n 0) as [E|E]; [destruct (c <? 65536); lia|].
  destruct (c <? 65536).
  - f_equal. apply IH. lia.
  - destruct (N.eqb_spec n 1) as [E1|E1]; [lia|]. f_equal. apply IH. lia.
Qed.

(** The field never holds more than [n] code units. *)
Lemma left_bound s : forall n, utf16_length (qstring_left n s) <= n.
Proof.
  induction s as [|c s IH]; intros n; [cbn; lia|].
  cbn [qstring_left]. destruct (N.eqb_spec n 0) as [E|E]; [cbn; lia|].
  destruct (c <? 65536) eqn:Hc.
  - unfold utf16_length. cbn [fold_right]. fold (utf16_length (qstring_left (n - 1) s)).
    rewrite Hc. specialize (IH (n - 1)). lia.
  - destruct (N.eqb_spec n 1) as [E1|E1].
    + unfold utf16_length, high_surrogate. cbn [fold_right].
      assert (H : (c / 1024 + 55232) mod 65536 < 65536) by (apply N.mod_lt; lia).
      apply N.ltb_lt in H. rewrite H. lia.
    + unfold utf16_length. cbn [fold_right]. fold (utf16_length (qstring_left (n - 2) s)).
      rewrite Hc. specialize (IH (n - 2)). lia.
Qed.

(** The field keeps the first code point of a text. *)
Lemma left_head c s : exists r, qstring_left MAX_LENGTH (c :: s) = c :: r.
Proof.
  cbn [qstring_left]. change (MAX_LENGTH =? 0) with false.
  change (MAX_LENGTH =? 1) with false. cbn iota.
  destruct (c <? 65536); eexists; reflexivity.
Qed.

Lemma pending_send_result env prompt l w :
  pending_code w <> Some [] ->
  pending_code (final (send_result env prompt l w)) <> Some [].
Proof.
  intros H. unfold send_result.
  destruct (truthy_opt (answer l)); [|exact H].
  destruct (record_turn _ _); [|exact H].
  destruct (l_pending_code l) as [[|kv p]|]; cbn [truthy_opt truthy andb].
  - unfold say. cbn. destruct (has_voice w); exact H.
  - destruct (eqb_str _ _); unfold say; cbn; destruct (has_voice w);
      cbn; try exact H; discriminate.
  - unfold say. cbn. destruct (has_voice w); exact H.
Qed.

Lemma pending_call_llm env prompt w :
  pending_code w <> Some [] ->
  pending_code (final (_call_llm env prompt w)) <> Some [].
Proof.
  intros H. rewrite call_llm_dispatch.
  destruct (posted_frame env prompt w) as [_ [_ [Hpc _]]]. cbn zeta in *.
  set (w2 := if agent_replied (primary env) then _ else _) in *. clearbody w2.
  rewrite <- Hpc in H.
  destruct (dispatch env); [apply pending_send_result; exact H|exact H].
Qed.

(** In every reachable state the pending action is absent or non-empty. *)
Lemma reachable_pending w : reachable w -> pending_code w <> Some [].
Proof.
  induction 1 as [voice d|w w' Hr IH Hs]; [discriminate|].
  destruct Hs.
  - exact IH.
  - rewrite pending_send_message. exact IH.
  - unfold toggle_voice_input. destruct (negb _); [exact IH|].
    destruct (is_recording w); exact IH.
  - unfold _record_voice. rewrite pending_on_voice_text. exact IH.
  - apply pending_call_llm. exact IH.
  - rewrite (confirm_clears exec w IH). discriminate.
  - discriminate.
  - exact IH.
Qed.

(** C5. In every reachable state, confirm leaves no pending action whatever
    the execution endpoint does (success, other status, exception); cancel
    leaves no pending action and issues no HTTP call. *)
Theorem confirm_cancel_clear_pending w :
  reachable w ->
  (forall exec, pending_code (_on_confirm_execute exec w) = None)
  /\ pending_code (_on_cancel_execute w) = None
  /\ requests (_on_cancel_execute w) = requests w.
Proof.
  intros Hr. split; [|split; reflexivity].
  intros exec. apply confirm_clears. apply reachable_pending. exact Hr.
Qed.

(** C10. Neither confirm, whatever the execution endpoint does, nor cancel
    changes the history file: the stored log is the same before and after;
    the cancellation notice is only displayed. *)
Theorem confirm_cancel_keep_log w :
  (forall exec, disk (_on_confirm_execute exec w) = disk w
                /\ load_history (disk (_on_confirm_execute exec w)) = load_history (disk w))
  /\ disk (_on_cancel_execute w) = disk w
  /\ load_history (disk (_on_cancel_execute w)) = load_history (disk w)
  /\ response_label (_on_cancel_execute w) = MSG_CANCELLED.
Proof.
  split; [|repeat split].
  intros exec. rewrite disk_confirm. split; reflexivity.
Qed.

(** *** Empty input *)

Lemma lstrip_space s : forallb isspace s = true -> lstrip s = [].
Proof.
  induction s as [|c s IH]; [reflexivity|]. cbn [forallb lstrip].
  intros H. apply andb_true_iff in H. destruct H as [Hc Hs].
  rewrite Hc. apply IH. exact Hs.
Qed.

Lemma strip_space s : forallb isspace s = true -> strip s = [].
Proof. intros H. unfold strip. rewrite (lstrip_space s H). reflexivity. Qed.

(** C8, amended. An empty or blank input leaves the whole state unchanged
    when it is submitted as text; a blank transcript starts no worker, issues
    no request and leaves the file and the pending action alone; and an empty
    transcript changes exactly three things: the "didn't catch that" message
    is shown, the recording flag is reset and the microphone button returns
    to its idle style. *)
Theorem blank_input_no_dispatch w :
  (forallb isspace (input_field w) = true -> send_message w = w)
  /\ (forall text, forallb isspace text = true ->
        let w' := _on_voice_text text w in
        workers w' = workers w /\ requests w' = requests w /\ disk w' = disk w
        /\ pending_code w' = pending_code w)
  /\ _on_voice_text [] w =
       set_label MSG_NOT_HEARD (set_voice_btn StyleIdle (set_recording false w)).
Proof.
  split; [|split].
  - intros H. unfold send_message. rewrite (strip_space _ H). reflexivity.
  - intros text H. cbn zeta. unfold _on_voice_text.
    destruct (truthy text); [|repeat split].
    unfold send_message, setText. cbn [input_field set_input].
    rewrite (strip_space _ (left_blank text MAX_LENGTH H)). repeat split.
  - reflexivity.
Qed.

End BubbleFacts.

(** ** The properties at concrete inputs *)
Section BubbleExamples.
Import ChatBubble Sample.

(** C1 as stated fails.  When both calls raise, the connectivity error is
    shown but the log, empty before, is still empty: no turn with that
    message was appended.  When the fallback model answers 503 the message
    shown is not the connectivity error either. *)
Lemma both_fail_not_logged :
  agent_replied (primary env_down) = false
  /\ fallback_replied (fallback env_down) = false
  /\ ~ (response_label (final (_call_llm env_down (lit "hello") w0)) = MSG_UNREACHABLE
        /\ load_history (disk (final (_call_llm env_down (lit "hello") w0)))
           = turns_json [mkTurn stamp (lit "hello") MSG_UNREACHABLE])
  /\ agent_replied (primary env_busy) = false
  /\ fallback_replied (fallback env_busy) = false
  /\ response_label (final (_call_llm env_busy (lit "hello") w0)) <> MSG_UNREACHABLE.
Proof.
  split; [reflexivity|]. split; [reflexivity|]. split.
  - intros [_ H]. vm_compute in H. discriminate H.
  - split; [reflexivity|]. split; [reflexivity|].
    intros H. vm_compute in H. discriminate H.
Qed.

Lemma both_backends_fail_witness :
  (exists w',
     _call_llm env_down (lit "hello") w0 = Returned w'
     /\ response_label w' = MSG_UNREACHABLE
     /\ emitted w' = emitted w0 ++ [response_ready MSG_UNREACHABLE]
     /\ disk w' = disk w0)
  /\ (exists w',
     _call_llm env_busy (lit "hello") w0 = Returned w'
     /\ response_label w' = MSG_SPEECHLESS
     /\ emitted w' = emitted w0 ++ [response_ready MSG_SPEECHLESS]
     /\ disk w' = disk w0).
Proof.
  split.
  - apply (both_backends_fail env_down (lit "hello") w0); reflexivity.
  - apply (both_backends_fail env_busy (lit "hello") w0); reflexivity.
Defined.

Lemma pending_action_routing_witness :
  exists w',
    _call_llm env_agent (lit "open browser") w0 = Returned w'
    /\ routed w0 w' (lit "ok") action.
Proof.
  destruct (pending_action_routing env_agent (lit "open browser") w0
              (mkLocals (Some (lit "ok")) (Some action) (lit "agent")) []
              eq_refl eq_refl) as [w' [Hr [_ [H _]]]].
  exists w'. split; [exact Hr|].
  apply (H action); reflexivity.
Defined.

Lemma w_confirming_reachable : reachable w_confirming.
Proof.
  unfold w_confirming. eapply reach_step; [apply reach_init|apply step_llm].
Defined.

Lemma w_confirming_pending : pending_code w_confirming = Some action.
Proof. reflexivity. Qed.

Lemma confirm_cancel_clear_pending_witness :
  (forall exec, pending_code (_on_confirm_execute exec w_confirming) = None)
  /\ pending_code (_on_cancel_execute w_confirming) = None
  /\ requests (_on_cancel_execute w_confirming) = requests w_confirming.
Proof.
  apply (confirm_cancel_clear_pending w_confirming). exact w_confirming_reachable.
Defined.

(** C8 as stated fails in the voice case: when an empty transcript arrives
    while the controller is recording, the state does not only get a new
    message; the recording flag is reset as well. *)
Lemma empty_transcript_resets_recording :
  is_recording w_listening = true
  /\ is_recording (_on_voice_text [] w_listening) = false
  /\ _on_voice_text [] w_listening <> set_label MSG_NOT_HEARD w_listening.
Proof.
  split; [reflexivity|]. split; [reflexivity|].
  intros H. apply (f_equal is_recording) in H. discriminate H.
Qed.

Lemma blank_input_no_dispatch_witness :
  send_message (set_input (lit "   ") w0) = set_input (lit "   ") w0
  /\ (workers (_on_voice_text (lit " ") w_listening) = workers w_listening
      /\ requests (_on_voice_text (lit " ") w_listening) = requests w_listening
      /\ disk (_on_voice_text (lit " ") w_listening) = disk w_listening
      /\ pending_code (_on_voice_text (lit " ") w_listening) = pending_code w_listening).
Proof.
  split.
  - apply (proj1 (blank_input_no_dispatch (set_input (lit "   ") w0))). reflexivity.
  - apply (proj1 (proj2 (blank_input_no_dispatch w_listening)) (lit " ")). reflexivity.
Defined.

(** The scenarios of the specification. *)
Example scenario_chat :
  let w' := final (_call_llm env_chat (lit "hello") w0) in
  response_label w' = lit "[Chat] hi"
  /\ load_history (disk w') = turns_json [mkTurn stamp (lit "hello") (lit "hi")]
  /\ pending_code w' = None /\ confirm_shown w' = false
  /\ fallback_calls w' = 0%nat.
Proof. vm_compute. repeat split. Qed.

Example scenario_agent :
  response_label w_confirming
    = lit "[Agent] ok" ++ PREVIEW_HEAD ++ lit "print(1)" ++ lit "..."
  /\ pending_code w_confirming = Some action
  /\ confirm_shown w_confirming = true
  /\ load_history (disk w_confirming)
     = turns_json [mkTurn stamp (lit "open browser") (lit "ok")].
Proof. vm_compute. repeat split. Qed.

Example scenario_backup :
  let w' := final (_call_llm env_backup (lit "hello") w0) in
  response_label w' = lit "[Backup] fallback answer"
  /\ load_history (disk w')
     = turns_json [mkTurn stamp (lit "hello") (lit "fallback answer")]
  /\ fallback_calls w' = 1%nat.
Proof. vm_compute. repeat split. Qed.

(** A reply that UTF-8 cannot encode is shown like any other, but recording
    it costs the stored log: the two turns of the file are gone after the
    run. *)
Example scenario_lone :
  let w := set_disk Cases.fs_two w0 in
  let w' := final (_call_llm Cases.env_lone (lit "hello") w) in
  load_history (disk w) = turns_json Cases.two_turns
  /\ response_label w' = lit "[Chat] ok " ++ [55357]
  /\ history_file (disk w')
     = Content ([91] ++ newline_indent 1 ++ encode 1 (turn_json (turn_n 1))
                ++ [44] ++ newline_indent 1 ++ encode 1 (turn_json (turn_n 2))
                ++ [44] ++ newline_indent 1 ++ [123]
                ++ newline_indent 2 ++ encode_basestring (lit "time") ++ [58; 32]
                ++ encode_basestring stamp ++ [44]
                ++ newline_indent 2 ++ encode_basestring (lit "user") ++ [58; 32]
                ++ encode_basestring (lit "hello") ++ [44]
                ++ newline_indent 2 ++ encode_basestring (lit "ai") ++ [58; 32])
  /\ load_history (disk w') = JArr [].
Proof. vm_compute. repeat split. Qed.

End BubbleExamples.

(** ** Speech output *)
Section VoiceFacts.
Import VoiceModule.

Lemma offline_called_log e v :
  offline_called (log e v)
  = offline_called v || match e with OfflineCalled _ => true | _ => false end.
Proof.
  unfold offline_called, log. cbn [trace]. rewrite existsb_app. cbn [existsb].
  rewrite orb_false_r. reflexivity.
Qed.

Lemma offline_called_init env v :
  offline_called v = true -> offline_called (snd (_init_offline_tts env v)) = true.
Proof.
  intros H. unfold _init_offline_tts.
  destruct (pyttsx_engine v); [exact H|].
  destruct (offline_init env); cbn [snd]; rewrite offline_called_log, orb_false_r.
  - exact H.
  - exact H.
  - exact H.
Qed.

Lemma speak_offline_called env text v :
  offline_called (_speak_offline env text v) = true.
Proof.
  unfold _speak_offline.
  pose proof (offline_called_init env (log (OfflineCalled text) v)) as H.
  rewrite offline_called_log, orb_true_r in H. specialize (H eq_refl).
  destruct (_init_offline_tts env (log (OfflineCalled text) v)) as [ok v1].
  cbn [snd] in H. destruct ok; cbn [negb]; [|exact H].
  destruct (offline_say_ok env); rewrite offline_called_log, H; reflexivity.
Qed.

(** With the edge engine, a failed import and a failure of [asyncio.run]
    both reach the offline synthesizer. *)
Lemma speak_edge_falls_back init ok c text language ready tr r :
  r = EdgeImportError \/ r = RunRaises ->
  offline_called (speak (mkEnv r init ok) (c :: text)
                    (mkState language (lit "edge") ready tr)) = true.
Proof.
  intros [-> | ->]; cbn [speak truthy negb tts_engine];
    change (eqb_str (lit "edge") (lit "edge")) with true; cbn iota;
    unfold _speak_edge; cbn [edge]; apply speak_offline_called.
Qed.

(** C9, at the failing input.  When the edge coroutine raises an exception
    other than [ImportError], [speak] only prints: the offline synthesizer is
    not called, for any non-empty text and whatever the offline engine could
    have done. *)
Theorem speak_edge_error_no_fallback e init ok c text language ready tr :
  speak (mkEnv (EdgeException e) init ok) (c :: text)
        (mkState language (lit "edge") ready tr)
  = mkState language (lit "edge") ready (tr ++ [Printed])
  /\ offline_called (speak (mkEnv (EdgeException e) init ok) (c :: text)
                       (mkState language (lit "edge") ready tr))
     = offline_called (mkState language (lit "edge") ready tr).
Proof.
  split; [reflexivity|].
  cbn [speak truthy negb tts_engine].
  change (eqb_str (lit "edge") (lit "edge")) with true. cbn iota.
  unfold _speak_edge. cbn [edge]. rewrite offline_called_log, orb_false_r.
  reflexivity.
Qed.

End VoiceFacts.

(** ** More on the bubble *)
Section BubbleMore.
Import ChatBubble View.

Ltac ops :=
  cbn [final say _show_code_confirm _update_response _hide_confirm_buttons
       log_signal set_disk set_label set_pending set_confirm_shown set_input
       set_recording set_voice_btn post start
       response_label input_field voice_btn is_recording pending_code
       confirm_shown has_voice stop_requested disk requests spoken workers
       emitted].

Ltac frame_done := repeat split; try discriminate; try (intros; reflexivity).

Lemma send_result_gate env prompt l w :
  let w' := final (send_result env prompt l w) in
  (confirm_shown w' = confirm_shown w /\ pending_code w' = pending_code w)
  \/ (confirm_shown w' = true /\ exists p, pending_code w' = Some p).
Proof.
  cbn zeta. unfold send_result.
  destruct (truthy_opt (answer l)); [|left; split; reflexivity].
  destruct (record_turn _ _); [|left; split; reflexivity].
  destruct (_ && _).
  - right. unfold say. cbn. destruct (has_voice w); cbn; split; eauto.
  - left. unfold say. cbn. destruct (has_voice w); split; reflexivity.
Qed.

Lemma call_llm_gate env prompt w :
  let w' := final (_call_llm env prompt w) in
  (confirm_shown w' = confirm_shown w /\ pending_code w' = pending_code w)
  \/ (confirm_shown w' = true /\ exists p, pending_code w' = Some p).
Proof.
  cbn zeta. rewrite call_llm_dispatch.
  destruct (posted_frame env prompt w) as [_ [_ [Hpc Hcs]]]. cbn zeta in *.
  set (w2 := if agent_replied (primary env) then _ else _) in *. clearbody w2.
  rewrite <- Hpc, <- Hcs.
  destruct (dispatch env); [apply send_result_gate|left; split; reflexivity].
Qed.

Lemma gate_send_message w :
  confirm_shown (send_message w) = confirm_shown w
  /\ pending_code (send_message w) = pending_code w.
Proof. unfold send_message. destruct (negb _); split; reflexivity. Qed.

Lemma gate_on_voice_text t w :
  confirm_shown (_on_voice_text t w) = confirm_shown w
  /\ pending_code (_on_voice_text t w) = pending_code w.
Proof.
  unfold _on_voice_text. destruct (truthy t); [|split; reflexivity].
  destruct (gate_send_message (setText t (set_voice_btn StyleIdle (set_recording false w))))
    as [-> ->].
  split; reflexivity.
Qed.

Lemma reachable_buttons w : reachable w -> buttons_match w.
Proof.
  unfold buttons_match.
  induction 1 as [voice d|w w' Hr IH Hs]; [reflexivity|].
  pose proof (reachable_pending w Hr) as Hne.
  destruct Hs.
  - exact IH.
  - destruct (gate_send_message w) as [-> ->]. exact IH.
  - unfold toggle_voice_input. destruct (negb _); [exact IH|].
    destruct (is_recording w); exact IH.
  - unfold _record_voice.
    destruct (gate_on_voice_text
      match r with Some (Some t) => if truthy t then t else [] | _ => [] end
      (log_signal (voice_text_ready
        match r with Some (Some t) => if truthy t then t else [] | _ => [] end) w))
      as [-> ->]. exact IH.
  - destruct (call_llm_gate env prompt w) as [[-> ->]|[-> [p ->]]];
      [exact IH|reflexivity].
  - unfold _on_confirm_execute.
    destruct (pending_code w) as [[|kv p]|] eqn:E; [contradiction| |rewrite E; exact IH].
    unfold say, _hide_confirm_buttons.
    destruct (get (lit "language") (kv :: p)) as [language|];
      [destruct (get (lit "code") (kv :: p)) as [code|];
        [destruct exec as [e|s [b|e]]; [|destruct (s =? 200)..]|]|];
      cbn; destruct (has_voice w); reflexivity.
  - reflexivity.
  - exact IH.
Qed.

(** X1. In every reachable state the confirm and cancel buttons are visible
    exactly when an action is pending, and a pending action is never an
    empty dict. *)
Theorem buttons_iff_pending w :
  reachable w ->
  (confirm_shown w = true <-> exists p, pending_code w = Some p /\ truthy p = true)
  /\ (confirm_shown w = false <-> pending_code w = None).
Proof.
  intros Hr. pose proof (reachable_buttons w Hr) as Hb.
  pose proof (reachable_pending w Hr) as Hne. unfold buttons_match in Hb.
  destruct (pending_code w) as [[|kv p]|]; [contradiction| |]; rewrite Hb; split; split;
    try discriminate; try reflexivity.
  - intros _. exists (kv :: p). split; reflexivity.
  - intros [p [H _]]. discriminate H.
Qed.

(** X2. Confirm with nothing pending does nothing.  With a pending action
    that has both keys it posts exactly one execute request, carrying that
    language and code; when a key is missing it posts nothing and names the
    key in the error shown.  In both cases it says "done" when there is a
    voice, whatever the endpoint answered. *)
Theorem confirm_request exec w p :
  (pending_code w = None -> _on_confirm_execute exec w = w)
  /\ (pending_code w = Some p -> truthy p = true ->
      let w' := _on_confirm_execute exec w in
      spoken w' = (if has_voice w then spoken w ++ [SAY_EXEC_DONE] else spoken w)
      /\ match get (lit "language") p, get (lit "code") p with
         | Some language, Some code =>
             requests w' = requests w ++ [PostExecute language code]
         | None, _ =>
             requests w' = requests w
             /\ response_label w' = MSG_EXEC_ERROR ++ lit "'language'"
         | Some _, None =>
             requests w' = requests w
             /\ response_label w' = MSG_EXEC_ERROR ++ lit "'code'"
         end).
Proof.
  split.
  - intros H. unfold _on_confirm_execute. rewrite H. reflexivity.
  - intros H Ht. cbn zeta. unfold _on_confirm_execute. rewrite H.
    destruct p as [|kv p]; [discriminate Ht|].
    unfold say, _hide_confirm_buttons.
    destruct (get (lit "language") (kv :: p)) as [language|];
      [destruct (get (lit "code") (kv :: p)) as [code|];
        [destruct exec as [e|s [b|e]]; [|destruct (s =? 200)..]|]|];
      cbn; destruct (has_voice w); repeat split.
Qed.

Lemma call_llm_keeps_gate env prompt w :
  proposes env = false ->
  pending_code (final (_call_llm env prompt w)) = pending_code w
  /\ confirm_shown (final (_call_llm env prompt w)) = confirm_shown w.
Proof.
  unfold proposes. intros Hp. rewrite call_llm_dispatch.
  destruct (posted_frame env prompt w) as [_ [_ [Hpc Hcs]]]. cbn zeta in *.
  set (w2 := if agent_replied (primary env) then _ else _) in *. clearbody w2.
  rewrite <- Hpc, <- Hcs.
  destruct (dispatch env) as [l|]; [|split; reflexivity].
  unfold send_result. rewrite Hp.
  destruct (truthy_opt (answer l)); [|split; reflexivity].
  destruct (record_turn _ _); [|split; reflexivity].
  unfold say. cbn. destruct (has_voice w2); split; reflexivity.
Qed.

(** X3. A run that does not end with the agent proposing an action leaves an
    earlier pending action and its buttons in place; confirming afterwards
    executes that earlier action. *)
Theorem stale_action_survives env prompt exec w p language code :
  proposes env = false ->
  pending_code w = Some p ->
  get (lit "language") p = Some language ->
  get (lit "code") p = Some code ->
  let w' := final (_call_llm env prompt w) in
  pending_code w' = Some p
  /\ confirm_shown w' = confirm_shown w
  /\ requests (_on_confirm_execute exec w') = requests w' ++ [PostExecute language code].
Proof.
  intros Hp Hw Hl Hc. cbn zeta.
  destruct (call_llm_keeps_gate env prompt w Hp) as [H1 H2].
  rewrite H1, H2, Hw. split; [reflexivity|]. split; [reflexivity|].
  set (w' := final (_call_llm env prompt w)) in *.
  assert (Hpw : pending_code w' = Some p) by (rewrite H1; exact Hw).
  unfold _on_confirm_execute. rewrite Hpw.
  destruct p as [|kv p]; [discriminate Hl|]. rewrite Hl, Hc.
  unfold say, _hide_confirm_buttons.
  destruct exec as [e|s [b|e]]; [|destruct (s =? 200)..];
    cbn; destruct (has_voice w'); reflexivity.
Qed.

(** *** Stripping *)

Lemma lstrip_split s :
  exists pre, s = pre ++ lstrip s /\ forallb isspace pre = true.
Proof.
  induction s as [|c s [pre [E Hp]]]; [exists []; split; reflexivity|].
  cbn [lstrip]. destruct (isspace c) eqn:Hc.
  - exists (c :: pre). cbn [app forallb]. rewrite Hc, Hp, <- E. split; reflexivity.
  - exists []. split; reflexivity.
Qed.

Lemma lstrip_head s c r : lstrip s = c :: r -> isspace c = false.
Proof.
  induction s as [|x s IH]; [discriminate|]. cbn [lstrip].
  destruct (isspace x) eqn:Hx; [exact IH|]. intros [= <- _]. exact Hx.
Qed.

Lemma forallb_rev {A} (f : A -> bool) l : forallb f (rev l) = forallb f l.
Proof.
  induction l as [|x l IH]; [reflexivity|].
  cbn [rev forallb]. rewrite forallb_app, IH. cbn [forallb].
  rewrite andb_true_r. apply andb_comm.
Qed.

(** [strip] removes white space at both ends and nothing else. *)
Lemma strip_spec s :
  (exists pre post,
     s = pre ++ strip s ++ post
     /\ forallb isspace pre = true /\ forallb isspace post = true)
  /\ (forall c r, strip s = c :: r -> isspace c = false)
  /\ (forall c r, rev (strip s) = c :: r -> isspace c = false).
Proof.
  unfold strip, rstrip.
  destruct (lstrip_split s) as [pre [Es Hpre]].
  destruct (lstrip_split (rev (lstrip s))) as [q [Eq Hq]].
  set (t := lstrip s) in *. set (u := lstrip (rev t)) in *.
  assert (Et : t = rev u ++ rev q).
  { rewrite <- rev_app_distr, <- Eq, rev_involutive. reflexivity. }
  split; [|split].
  - exists pre, (rev q). rewrite <- Et. split; [exact Es|]. split; [exact Hpre|].
    rewrite forallb_rev. exact Hq.
  - intros c r H. rewrite H in Et. cbn [app] in Et.
    apply (lstrip_head s c (r ++ rev q)). exact Et.
  - intros c r H. rewrite rev_involutive in H.
    apply (lstrip_head (rev t) c r). exact H.
Qed.

(** X4. A submitted text that is not blank starts exactly one worker.  Its
    prompt is the input without the white space at its two ends: it is not
    empty, it neither begins nor ends with white space, and the input is the
    prompt between two runs of white space.  The input field is emptied and
    no request is made by the interface itself. *)
Theorem submitted_prompt_is_stripped w :
  truthy (strip (input_field w)) = true ->
  let prompt := strip (input_field w) in
  let w' := send_message w in
  workers w' = workers w ++ [CallLlm prompt]
  /\ input_field w' = []
  /\ response_label w' = MSG_THINKING
  /\ requests w' = requests w
  /\ (exists pre post,
        input_field w = pre ++ prompt ++ post
        /\ forallb isspace pre = true /\ forallb isspace post = true)
  /\ (forall c r, prompt = c :: r -> isspace c = false)
  /\ (forall c r, rev prompt = c :: r -> isspace c = false).
Proof.
  intros H. cbn zeta. unfold send_message. rewrite H. cbn [negb].
  repeat (split; [reflexivity|]). apply strip_spec.
Qed.

(** *** What is stored and what is shown *)

(** X5. When the history file can be written and holds a log of turns, a
    run that obtains a reply stores the last 99 turns of that log followed
    by one new turn: the time stamp, the prompt as submitted and the first
    200 code points of the reply -- provided every text of those turns can
    be encoded as UTF-8; if one cannot, the log reads back empty.  The log
    stored has at most 100 turns, and the reply shown is not cut. *)
Theorem stored_reply_is_cut env prompt w h l a :
  dispatch env = Some l ->
  answer l = Some a -> truthy a = true ->
  writable (disk w) = true ->
  load_history (disk w) = turns_json h ->
  let w' := final (_call_llm env prompt w) in
  let t := mkTurn (now env) prompt (slice_to 200 a) in
  load_history (disk w')
  = (if storable (slice_last (HISTORY_CAP - 1) h ++ [t])
     then turns_json (slice_last (HISTORY_CAP - 1) h ++ [t]) else JArr [])
  /\ (length (slice_last (HISTORY_CAP - 1) h ++ [t]) <= HISTORY_CAP)%nat
  /\ (length (ai t) <= 200)%nat
  /\ (proposes env = false -> response_label w' = mode_label (mode l) ++ lit " " ++ a).
Proof.
  intros Hd Ha Ht Hw Hl. cbn zeta.
  assert (Hta : truthy_opt (answer l) = true) by (rewrite Ha; exact Ht).
  rewrite (call_llm_appends env prompt w h l Hd Hta Hw Hl).
  rewrite Ha. cbn [text_of].
  rewrite slice_last_snoc by (unfold HISTORY_CAP; lia).
  split; [reflexivity|]. split; [|split].
  - rewrite length_app. cbn [length]. unfold slice_last. rewrite length_skipn.
    unfold HISTORY_CAP. lia.
  - cbn [ai]. unfold slice_to. rewrite length_firstn. lia.
  - unfold proposes. rewrite Hd. intros Hp. rewrite call_llm_dispatch, Hd.
    destruct (posted_frame env prompt w) as [Hdisk _]. cbn zeta in *.
    set (w2 := if agent_replied (primary env) then _ else _) in *. clearbody w2.
    unfold send_result, record_turn. rewrite Hta, Hp, Hdisk, Hl, Ha.
    unfold turns_json. unfold say. cbn. destruct (has_voice w2); reflexivity.
Qed.

(** X6. What a run shows, says and sends does not depend on the history
    file, as long as the file loads as a list: neither its contents nor
    whether it can be written change the reply. *)
Theorem reply_independent_of_log env prompt w d1 d2 h1 h2 :
  load_history d1 = JArr h1 ->
  load_history d2 = JArr h2 ->
  ui_view (final (_call_llm env prompt (set_disk d1 w)))
  = ui_view (final (_call_llm env prompt (set_disk d2 w))).
Proof.
  intros H1 H2. rewrite !call_llm_dispatch. cbn zeta.
  destruct (dispatch env) as [l|];
    [|destruct (agent_replied (primary env)); reflexivity].
  unfold send_result, record_turn.
  destruct (agent_replied (primary env)); cbn [disk set_disk post];
    rewrite H1, H2;
    (destruct (truthy_opt (answer l)); [|reflexivity]);
    (destruct (_ && _)); unfold say; cbn; destruct (has_voice w); reflexivity.
Qed.

(** *** Voice input *)

(** X7. However the recording worker ends (an exception, no transcript, an
    empty or a real transcript) it hands exactly one text to the interface,
    which leaves the recording state and puts the text in the input field,
    where it is cut to 32767 UTF-16 code units; a worker is started for what
    the field holds exactly when that is not blank, its prompt is the
    stripped content of the field, and no request is made meanwhile.  A
    transcript of at most 32767 code units is not cut. *)
Theorem record_voice_ends_recording result w :
  let w' := _record_voice result w in
  let kept := qstring_left MAX_LENGTH (heard result) in
  is_recording w' = false
  /\ voice_btn w' = StyleIdle
  /\ emitted w' = emitted w ++ [voice_text_ready (heard result)]
  /\ workers w' = workers w ++
       (if truthy (strip kept) then [CallLlm (strip kept)] else [])
  /\ requests w' = requests w
  /\ utf16_length kept <= MAX_LENGTH
  /\ (utf16_length (heard result) <= MAX_LENGTH -> kept = heard result).
Proof.
  cbn zeta. unfold _record_voice. fold (heard result).
  unfold _on_voice_text.
  destruct (truthy (heard result)) eqn:Hh.
  - unfold send_message, setText. cbn [input_field set_input].
    destruct (truthy (strip (qstring_left MAX_LENGTH (heard result))));
      cbn [negb]; ops; rewrite ?app_nil_r; repeat split;
      try apply left_bound; apply left_fits.
  - destruct (heard result); [|discriminate Hh]. ops.
    change (strip (qstring_left MAX_LENGTH [])) with (@nil N). cbn [truthy].
    rewrite app_nil_r. repeat split. cbn. discriminate.
Qed.

(** X8. Pressing the microphone button again while a recording is running
    starts no second recording: however often it is pressed, one worker was
    started, the bubble still counts as recording, and from the second press
    on the stop flag of the voice module is set. *)
Theorem one_recording_worker n w :
  has_voice w = true -> is_recording w = false ->
  let w' := presses (S n) w in
  workers w' = workers w ++ [RecordVoice]
  /\ is_recording w' = true
  /\ has_voice w' = true
  /\ stop_requested w' = (match n with O => stop_requested w | S _ => true end).
Proof.
  intros Hv Hr. cbn zeta. induction n as [|n [IHw [IHr [IHv IHs]]]].
  - cbn [presses]. unfold toggle_voice_input. rewrite Hv, Hr. cbn. repeat split.
    exact Hv.
  - change (presses (S (S n)) w) with (toggle_voice_input (presses (S n) w)).
    unfold toggle_voice_input at 1 2 3 4. rewrite IHv, IHr. cbn.
    repeat split; assumption.
Qed.

Lemma send_result_frame env prompt l w :
  let w' := final (send_result env prompt l w) in
  has_voice w' = has_voice w /\ is_recording w' = is_recording w
  /\ voice_btn w' = voice_btn w /\ workers w' = workers w
  /\ input_field w' = input_field w /\ stop_requested w' = stop_requested w
  /\ (has_voice w = false -> spoken w' = spoken w).
Proof.
  cbn zeta. unfold send_result.
  destruct (truthy_opt (answer l)); [|frame_done].
  destruct (record_turn _ _); [|frame_done].
  destruct (_ && _); unfold say; ops; destruct (has_voice w) eqn:Hv; ops; frame_done;
    exact Hv.
Qed.

Lemma call_llm_frame env prompt w :
  let w' := final (_call_llm env prompt w) in
  has_voice w' = has_voice w /\ is_recording w' = is_recording w
  /\ voice_btn w' = voice_btn w /\ workers w' = workers w
  /\ input_field w' = input_field w /\ stop_requested w' = stop_requested w
  /\ (has_voice w = false -> spoken w' = spoken w).
Proof.
  cbn zeta. rewrite call_llm_dispatch. cbn zeta.
  set (w2 := if agent_replied (primary env) then _ else _).
  assert (H2 : has_voice w2 = has_voice w /\ is_recording w2 = is_recording w
               /\ voice_btn w2 = voice_btn w /\ workers w2 = workers w
               /\ input_field w2 = input_field w
               /\ stop_requested w2 = stop_requested w /\ spoken w2 = spoken w)
    by (unfold w2; destruct (agent_replied (primary env)); repeat split).
  clearbody w2. destruct H2 as [A [B [C [D [E [F G]]]]]].
  rewrite <- A, <- B, <- C, <- D, <- E, <- F, <- G.
  destruct (dispatch env) as [l|]; [apply send_result_frame|frame_done].
Qed.

Lemma confirm_frame exec w :
  let w' := _on_confirm_execute exec w in
  has_voice w' = has_voice w /\ is_recording w' = is_recording w
  /\ voice_btn w' = voice_btn w /\ workers w' = workers w
  /\ (has_voice w = false -> spoken w' = spoken w).
Proof.
  cbn zeta. unfold _on_confirm_execute.
  destruct (pending_code w) as [[|kv p]|]; try (frame_done; fail).
  destruct (get (lit "language") (kv :: p)) as [language|];
    [destruct (get (lit "code") (kv :: p)) as [code|];
      [destruct exec as [e|s [b|e]]; [|destruct (s =? 200)..]|]|];
    unfold say; ops; destruct (has_voice w) eqn:Hv; ops; frame_done; exact Hv.
Qed.

Lemma not_recording_snoc ws t :
  ~ In RecordVoice ws -> ~ In RecordVoice (ws ++ [CallLlm t]).
Proof.
  intros H Hin. apply in_app_or in Hin. destruct Hin as [Hin|[Hin|[]]];
    [exact (H Hin)|discriminate Hin].
Qed.

Ltac mute_done :=
  split; [try reflexivity; try assumption|];
  intros _; split; [try reflexivity|];
  split; [auto|]; split; [auto|]; auto using not_recording_snoc.

Lemma mute_step w w' :
  step w w' ->
  has_voice w' = has_voice w
  /\ (has_voice w = false ->
      spoken w' = spoken w
      /\ (is_recording w = false -> is_recording w' = false)
      /\ (voice_btn w = StyleIdle -> voice_btn w' = StyleIdle)
      /\ (~ In RecordVoice (workers w) -> ~ In RecordVoice (workers w'))).
Proof.
  intros Hs. destruct Hs.
  - mute_done.
  - unfold send_message. destruct (negb _); ops; mute_done.
  - unfold toggle_voice_input. destruct (has_voice w) eqn:Hv; cbn [negb].
    + split; [|discriminate]. destruct (is_recording w); ops; exact Hv.
    + mute_done.
  - unfold _record_voice, _on_voice_text. fold (heard r).
    destruct (truthy (heard r)); [|ops; mute_done].
    unfold send_message, setText. cbn [input_field set_input].
    destruct (negb _); ops; mute_done.
  - destruct (call_llm_frame env prompt w) as [H1 [H2 [H3 [H4 [_ [_ H5]]]]]].
    cbn zeta in *. rewrite H1, H2, H3, H4.
    split; [reflexivity|]. intros Hv. rewrite (H5 Hv). auto.
  - destruct (confirm_frame exec w) as [H1 [H2 [H3 [H4 H5]]]].
    cbn zeta in *. rewrite H1, H2, H3, H4.
    split; [reflexivity|]. intros Hv. rewrite (H5 Hv). auto.
  - ops. mute_done.
  - ops. mute_done.
Qed.

(** X9. A bubble built without a voice module never speaks, never records
    and never starts a recording worker, whatever happens to it. *)
Theorem silent_without_voice w :
  reachable w -> has_voice w = false ->
  spoken w = [] /\ is_recording w = false /\ voice_btn w = StyleIdle
  /\ ~ In RecordVoice (workers w).
Proof.
  induction 1 as [voice d|w w' Hr IH Hs]; intros Hv.
  - cbn. repeat split; auto.
  - destruct (mute_step w w' Hs) as [E H]. rewrite E in Hv.
    destruct (IH Hv) as [I1 [I2 [I3 I4]]].
    destruct (H Hv) as [S1 [S2 [S3 S4]]].
    rewrite S1. repeat split; auto.
Qed.

End BubbleMore.

(** ** The pet window *)
Section PetFacts.
Import IoPet.

(** X10. The context handed to the model is empty exactly when no application
    is known (a window title alone is never reported); at most 50 code
    points of a title are quoted, so the context is at most 64 code points
    longer than the application name; and an accepted answer of the context
    endpoint that names no application empties the context, whatever title
    it carries. *)
Theorem context_is_bounded a :
  (get_context a = [] <-> current_app a = [])
  /\ (length (get_context a) <= length (current_app a) + 64)%nat
  /\ (forall title,
        get_context (_update_activity
                       (Response 200 (Json (mkContext true title None))) a) = []).
Proof.
  split; [|split].
  - unfold get_context. destruct (current_app a) as [|c app]; cbn [truthy andb].
    + split; reflexivity.
    + destruct (truthy (current_title a)); split; intros H; discriminate H.
  - unfold get_context.
    destruct (current_app a) as [|c app]; cbn [truthy andb]; [cbn; lia|].
    destruct (truthy (current_title a)).
    + destruct (Nat.ltb_spec 50 (length (current_title a))) as [Hl|Hl];
        rewrite !length_app; unfold slice_to; rewrite ?length_firstn;
        cbn [length CTX_USING CTX_WINDOW lit map list_ascii_of_string]; lia.
    + rewrite length_app. cbn [length CTX_USING]. lia.
  - intros title. reflexivity.
Qed.

Lemma position_unfold s :
  position_above_pet s =
  (Z.max 10 (Z.min (fst (pos s) - 115) (screen_width s - 390)),
   Z.max 10 (snd (pos s) - bubble_height s - 10))%Z.
Proof.
  unfold position_above_pet, PET_SIZE, BUBBLE_WIDTH.
  change (150 / 2)%Z with 75%Z. change (380 / 2)%Z with 190%Z.
  f_equal. f_equal. f_equal; lia.
Qed.

(** X11. The bubble is placed at least 10 pixels from the left and the top
    edge.  On a screen at least 400 pixels wide it also ends 10 pixels
    before the right edge; on a narrower one it sits at the left margin.
    When no margin is hit it is centred on the pet and ends 10 pixels above
    it. *)
Theorem bubble_placement s :
  let x := fst (position_above_pet s) in
  let y := snd (position_above_pet s) in
  (10 <= x /\ 10 <= y)%Z
  /\ ((BUBBLE_WIDTH + 20 <= screen_width s)%Z ->
      (x + BUBBLE_WIDTH + 10 <= screen_width s)%Z)
  /\ ((screen_width s < BUBBLE_WIDTH + 20)%Z -> x = 10%Z)
  /\ ((10 <= fst (pos s) - 115 <= screen_width s - 390)%Z ->
      (2 * x + BUBBLE_WIDTH = 2 * fst (pos s) + PET_SIZE)%Z)
  /\ ((20 <= snd (pos s) - bubble_height s)%Z ->
      (y + bubble_height s + 10 = snd (pos s))%Z).
Proof.
  cbn zeta. rewrite position_unfold. cbn [fst snd].
  unfold BUBBLE_WIDTH, PET_SIZE. repeat split; intros; lia.
Qed.

Lemma last_cons {A} (l : list A) : forall x d, last (x :: l) d = last l x.
Proof.
  induction l as [|y l IH]; intros x d; [reflexivity|].
  change (last (x :: y :: l) d) with (last (y :: l) d).
  rewrite (IH y d), (IH y x). reflexivity.
Qed.

Lemma moves_spec gs : forall g0 s d,
  drag_position s = Some d ->
  let s' := moves (g0 :: gs) s in
  drag_position s' = Some d
  /\ is_dragging s' = true
  /\ pos s' = minus (last gs g0) d
  /\ bubble_visible s' = bubble_visible s
  /\ bubble_height s' = bubble_height s
  /\ screen_width s' = screen_width s
  /\ bubble_pos s' = (if bubble_visible s then position_above_pet s' else bubble_pos s).
Proof.
  induction gs as [|g gs IH]; intros g0 s d Hd; cbn zeta.
  - cbn [moves fold_left last]. unfold mouseMoveEvent. rewrite Hd.
    cbn [bubble_visible]. destruct (bubble_visible s); cbn; repeat split.
  - change (moves (g0 :: g :: gs) s) with (moves (g :: gs) (mouseMoveEvent g0 s)).
    assert (H1 : drag_position (mouseMoveEvent g0 s) = Some d).
    { unfold mouseMoveEvent. rewrite Hd. cbn [bubble_visible].
      destruct (bubble_visible s); reflexivity. }
    destruct (IH g (mouseMoveEvent g0 s) d H1) as [A [B [C [D [E [F G]]]]]].
    cbn zeta in *.
    assert (Hv : bubble_visible (mouseMoveEvent g0 s) = bubble_visible s).
    { unfold mouseMoveEvent. rewrite Hd. cbn [bubble_visible].
      destruct (bubble_visible s); reflexivity. }
    assert (Hh : bubble_height (mouseMoveEvent g0 s) = bubble_height s).
    { unfold mouseMoveEvent. rewrite Hd. cbn [bubble_visible].
      destruct (bubble_visible s); reflexivity. }
    assert (Hw : screen_width (mouseMoveEvent g0 s) = screen_width s).
    { unfold mouseMoveEvent. rewrite Hd. cbn [bubble_visible].
      destruct (bubble_visible s); reflexivity. }
    rewrite A, B, C, D, E, F, G, Hv, Hh, Hw. repeat split.
    + rewrite last_cons. reflexivity.
    + destruct (bubble_visible s) eqn:Hb; [reflexivity|].
      unfold mouseMoveEvent. rewrite Hd. cbn [bubble_visible]. rewrite Hb. reflexivity.
Qed.

(** X12. A press and release of the left button with no movement in between
    is a click: it shows a hidden bubble or hides a shown one and leaves the
    pet where it is.  With movement in between it is a drag: the bubble is
    neither shown nor hidden, the pet ends where the pointer ends, displaced
    exactly as the pointer was, and a visible bubble has followed it.  Either
    way the drag state is reset. *)
Theorem click_or_drag g gs s :
  let s' := mouseReleaseEvent LeftButton (moves gs (mousePressEvent LeftButton g s)) in
  drag_position s' = None /\ is_dragging s' = false
  /\ match gs with
     | [] =>
         pos s' = pos s /\ bubble_visible s' = negb (bubble_visible s)
     | g1 :: rest =>
         bubble_visible s' = bubble_visible s
         /\ minus (pos s') (pos s) = minus (last rest g1) g
         /\ bubble_pos s' =
            (if bubble_visible s then position_above_pet s' else bubble_pos s)
     end.
Proof.
  cbn zeta. destruct gs as [|g1 rest].
  - cbn [moves fold_left]. unfold mouseReleaseEvent, mousePressEvent, toggle_chat.
    cbn. destruct (bubble_visible s); cbn; repeat split.
  - destruct (moves_spec rest g1 (mousePressEvent LeftButton g s) (minus g (pos s)) eq_refl)
      as [A [B [C [D [E [F G]]]]]]. cbn zeta in *.
    set (m := moves (g1 :: rest) (mousePressEvent LeftButton g s)) in *.
    unfold mouseReleaseEvent. rewrite B. cbn [negb pos drag_position is_dragging
      bubble_visible bubble_pos].
    split; [reflexivity|]. split; [reflexivity|].
    rewrite C, D, G. cbn [mousePressEvent bubble_visible bubble_pos pos].
    split; [reflexivity|]. split.
    + unfold minus. cbn [fst snd]. f_equal; lia.
    + destruct (bubble_visible s); [|reflexivity].
      rewrite !position_unfold. cbn [pos bubble_height screen_width].
      rewrite ?C. reflexivity.
Qed.

End PetFacts.

(** ** The history window *)
Section HistoryFacts.
Import HistoryWindow.

Lemma item_text_turn t : item_text (turn_json t) = Listed [turn_item t].
Proof. destruct t. reflexivity. Qed.

Lemma add_items_turns l : add_items (map turn_json l) = Listed (map turn_item l).
Proof.
  induction l as [|t l IH]; [reflexivity|].
  cbn [map add_items]. rewrite item_text_turn, IH. reflexivity.
Qed.

Lemma load_history_items fs h :
  load_history fs = turns_json h ->
  _load_history fs = Listed (map turn_item (rev h)).
Proof.
  intros H. unfold _load_history. rewrite H. unfold turns_json.
  rewrite <- map_rev. apply add_items_turns.
Qed.

(** X13. The history window lists a stored log newest first: one item per
    turn, in the reverse of the order of the file, each made of the time, the
    user's text and the reply of that turn. *)
Theorem history_newest_first fs h :
  load_history fs = turns_json h ->
  exists items,
    _load_history fs = Listed items
    /\ items = rev (map turn_item h)
    /\ length items = length h
    /\ (forall older t, h = older ++ [t] -> hd_error items = Some (turn_item t)).
Proof.
  intros H. exists (rev (map turn_item h)). rewrite (load_history_items fs h H).
  rewrite map_rev. repeat split.
  - rewrite length_rev, length_map. reflexivity.
  - intros older t ->. rewrite map_app, rev_app_distr. reflexivity.
Qed.

(** X14. When the history file can be written and holds a log of turns,
    and the texts of that log, the time stamp, the prompt and the first 200
    code points of the reply can all be encoded as UTF-8: after a run that
    obtained a reply, the first item of the history window is that exchange,
    the prompt and the first 200 code points of the reply, and at most 99
    older items follow.  When the texts of the new turn cannot be encoded,
    the window lists nothing after the run. *)
Theorem history_shows_last_run env prompt w h l a :
  ChatBubble.dispatch env = Some l ->
  ChatBubble.answer l = Some a -> truthy a = true ->
  writable (ChatBubble.disk w) = true ->
  load_history (ChatBubble.disk w) = turns_json h ->
  let t := mkTurn (ChatBubble.now env) prompt (slice_to 200 a) in
  let d := ChatBubble.disk (ChatBubble.final (ChatBubble._call_llm env prompt w)) in
  (storable h = true -> storable_turn t = true ->
     exists older,
       _load_history d = Listed (turn_item t :: older)
       /\ (length older < HISTORY_CAP)%nat)
  /\ (storable_turn t = false -> _load_history d = Listed []).
Proof.
  intros Hd Ha Ht Hw Hl. cbn zeta.
  assert (Hta : ChatBubble.truthy_opt (ChatBubble.answer l) = true)
    by (rewrite Ha; exact Ht).
  pose proof (call_llm_appends env prompt w h l Hd Hta Hw Hl) as H. cbn zeta in H.
  rewrite Ha in H. cbn [ChatBubble.text_of] in H.
  rewrite slice_last_snoc in H by (unfold HISTORY_CAP; lia).
  rewrite storable_app in H. unfold storable at 2 in H. cbn [forallb] in H.
  rewrite andb_true_r in H.
  split; [|intros Hst; rewrite Hst, andb_false_r in H;
           unfold _load_history; rewrite H; reflexivity].
  intros Hh Hst.
  assert (Hk : storable (slice_last (HISTORY_CAP - 1) h) = true)
    by (apply storable_slice_last; exact Hh).
  rewrite Hk, Hst in H. cbn [andb] in H.
  rewrite (load_history_items _ _ H).
  rewrite rev_app_distr. cbn [rev app map].
  eexists. split; [reflexivity|].
  rewrite length_map, length_rev. unfold slice_last. rewrite length_skipn.
  unfold HISTORY_CAP. lia.
Qed.

(** X15. Clearing the history empties the list shown.  When the file can be
    written it then holds the empty log; when it cannot, the failure is
    silent and the next history window lists the old turns again. *)
Theorem clear_history_effect fs h :
  load_history fs = turns_json h ->
  snd (_clear_history fs) = Listed []
  /\ _load_history (fst (_clear_history fs)) =
     (if writable fs then Listed [] else Listed (map turn_item (rev h))).
Proof.
  intros H. split; [reflexivity|].
  unfold _clear_history. cbn [fst]. unfold save_history.
  destruct (writable fs); [reflexivity|].
  apply load_history_items. exact H.
Qed.

End HistoryFacts.

(** ** Recording and transcription *)
Section VoiceInputFacts.
Import VoiceInput.

Lemma total_app a b : total (a ++ b) = total a + total b.
Proof.
  induction a as [|c a IH]; [reflexivity|].
  cbn [app total fold_right]. fold (total (a ++ b)). fold (total a). lia.
Qed.

(** X16. Once stop has been pressed the loop ends at its next wake-up,
    before silence or length are looked at, holding every block that had
    arrived by then.  The stop cue is played while the stream is still open,
    so the audio returned is made of those blocks followed by the blocks the
    callback delivers during the cue.  When no block arrived at all, neither
    before nor during the cue, no audio is returned; both cues are played. *)
Theorem manual_stop_ends_recording again arrived rest late :
  Forall (fun e => e = StopPressed) again ->
  (forall r,
     record_loop (StopPressed :: again ++ Tick arrived :: rest) r
     = Ended ByStop (audio_chunks r ++ arrived))
  /\ record_audio (StopPressed :: again ++ Tick arrived :: rest) late
     = ([StartBeep; StopBeep],
        Done (match arrived ++ late with
              | [] => None
              | c :: audio => Some (c :: audio)
              end)).
Proof.
  intros Ha.
  assert (H : forall r, _stop_recording r = true ->
            record_loop (again ++ Tick arrived :: rest) r
            = Ended ByStop (audio_chunks r ++ arrived)).
  { induction Ha as [|e again -> _ IH]; intros r Hr.
    - cbn [app record_loop]. rewrite Hr. reflexivity.
    - cbn [app record_loop]. apply (IH (mkRecording _ _ true)). reflexivity. }
  assert (H' : forall r,
            record_loop (StopPressed :: again ++ Tick arrived :: rest) r
            = Ended ByStop (audio_chunks r ++ arrived)).
  { intros r. cbn [record_loop]. apply (H (mkRecording _ _ true)). reflexivity. }
  split; [exact H'|].
  unfold record_audio. rewrite H'. reflexivity.
Qed.

Lemma recent_snoc l c : recent (l ++ [c]) = Some c.
Proof. unfold recent. rewrite rev_app_distr. reflexivity. Qed.



(** X18. A microphone that keeps delivering audio cannot be recorded for
    ever: if every wake-up brings at least [k] samples, the loop has ended
    by the time [k] times the number of wake-ups exceeds 480000. *)
Theorem steady_audio_ends_recording k events :
  Forall (busy_tick k) events ->
  MAX_SAMPLES < k * N.of_nat (length events) ->
  exists why chunks, record_loop events (mkRecording [] 0 false) = Ended why chunks.
Proof.
  intros Hall Hlen.
  assert (H : forall r,
    total (audio_chunks r) <= MAX_SAMPLES ->
    MAX_SAMPLES < k * N.of_nat (length events) + total (audio_chunks r) ->
    exists why chunks, record_loop events r = Ended why chunks).
  { clear Hlen. induction Hall as [|e evs [arrived [-> Hk]] _ IH]; intros r Hr Hm.
    - cbn [length] in Hm. lia.
    - cbn [record_loop].
      destruct (_stop_recording r); [eauto|].
      assert (Hnext : forall s, exists why chunks,
        (if MAX_SAMPLES <? total (audio_chunks r ++ arrived)
         then Ended ByCeiling (audio_chunks r ++ arrived)
         else record_loop evs (mkRecording (audio_chunks r ++ arrived) s false))
        = Ended why chunks).
      { intros s.
        destruct (N.ltb_spec MAX_SAMPLES (total (audio_chunks r ++ arrived))) as [Hc|Hc];
          [eauto|].
        apply IH; cbn [audio_chunks]; [exact Hc|].
        rewrite total_app. cbn [length] in Hm. lia. }
      destruct (recent (audio_chunks r ++ arrived)) as [c|]; [|apply Hnext].
      destruct (quiet c); [|apply Hnext].
      destruct (SILENCE_SAMPLES <=? silence_samples r + samples c); [eauto|apply Hnext]. }
  apply H; cbn; [unfold MAX_SAMPLES; lia|lia].
Qed.

(** X19. Silence is counted once per wake-up, by the size of the newest block
    only: after [n] wake-ups whose newest block is quiet and has [m] samples
    the counter has grown by [n * m], however much audio arrived, and the
    recording ends by silence at the first wake-up where that count reaches
    24000. *)
Theorem silence_is_counted_per_wakeup m events r :
  Forall (quiet_tick m) events ->
  _stop_recording r = false ->
  total (audio_chunks r ++ delivered events) <= MAX_SAMPLES ->
  silence_samples r + m * N.of_nat (length events) < SILENCE_SAMPLES ->
  record_loop events r
  = Running (mkRecording (audio_chunks r ++ delivered events)
               (silence_samples r + m * N.of_nat (length events)) false)
  /\ (forall e, quiet_tick m e ->
        SILENCE_SAMPLES <= silence_samples r + m * N.of_nat (S (length events)) ->
        record_loop (events ++ [e]) r
        = Ended BySilence (audio_chunks r ++ delivered (events ++ [e]))).
Proof.
  intros Hall. revert r.
  induction Hall as [|e evs [earlier [c [-> [Hq Hm]]]] _ IH]; intros r Hs Ht Hsil.
  - split.
    + cbn [record_loop delivered length]. rewrite app_nil_r.
      replace (silence_samples r + m * N.of_nat 0) with (silence_samples r) by lia.
      destruct r; cbn in *; subst; reflexivity.
    + intros e [earlier [c [-> [Hq Hm]]]] Hge.
      cbn [app record_loop delivered]. rewrite Hs, app_nil_r, app_assoc, recent_snoc, Hq, Hm.
      cbn [length] in Hge.
      destruct (N.leb_spec SILENCE_SAMPLES (silence_samples r + m)); [reflexivity|lia].
  - cbn [delivered length] in *.
    assert (Hstep : forall rest, record_loop (Tick (earlier ++ [c]) :: rest) r
              = record_loop rest (mkRecording (audio_chunks r ++ earlier ++ [c])
                                    (silence_samples r + m) false)).
    { intros rest. cbn [record_loop]. rewrite Hs, app_assoc, recent_snoc, Hq, Hm.
      destruct (N.leb_spec SILENCE_SAMPLES (silence_samples r + m)); [lia|].
      rewrite <- app_assoc.
      destruct (N.ltb_spec MAX_SAMPLES (total (audio_chunks r ++ earlier ++ [c])));
        [|reflexivity].
      rewrite !total_app in *. lia. }
    destruct (IH (mkRecording (audio_chunks r ++ earlier ++ [c]) (silence_samples r + m) false))
      as [IH1 IH2]; cbn [audio_chunks silence_samples _stop_recording].
    + reflexivity.
    + rewrite <- !app_assoc in *. exact Ht.
    + lia.
    + cbn [audio_chunks silence_samples _stop_recording] in IH1, IH2.
      split.
      * rewrite Hstep, IH1. f_equal. f_equal.
        -- rewrite <- !app_assoc. reflexivity.
        -- lia.
      * intros e He Hge. cbn [app]. rewrite Hstep, IH2; [|exact He|lia].
        cbn [delivered]. rewrite <- !app_assoc. reflexivity.
Qed.

(** X20. The loop never ends by itself while nothing is delivered, neither
    before the first block nor after a loud one: only a stop or a failure of
    the stream ends such a recording. *)
Theorem stalled_stream_keeps_recording n r late :
  _stop_recording r = false ->
  total (audio_chunks r) <= MAX_SAMPLES ->
  match recent (audio_chunks r) with Some c => quiet c = false | None => True end ->
  (exists r', record_loop (repeat (Tick []) n) r = Running r'
              /\ audio_chunks r' = audio_chunks r /\ _stop_recording r' = false)
  /\ record_audio (repeat (Tick []) n) late = ([StartBeep], Unfinished).
Proof.
  intros Hs Ht Hq.
  assert (H : forall r, _stop_recording r = false ->
    total (audio_chunks r) <= MAX_SAMPLES ->
    match recent (audio_chunks r) with Some c => quiet c = false | None => True end ->
    exists r', record_loop (repeat (Tick []) n) r = Running r'
               /\ audio_chunks r' = audio_chunks r /\ _stop_recording r' = false).
  { clear. induction n as [|n IH]; intros r Hs Ht Hq.
    - exists r. repeat split. exact Hs.
    - cbn [repeat record_loop]. rewrite Hs, app_nil_r.
      destruct (N.ltb_spec MAX_SAMPLES (total (audio_chunks r))) as [Hc|Hc]; [lia|].
      destruct (recent (audio_chunks r)) as [c|] eqn:Er.
      + rewrite Hq.
        destruct (IH (mkRecording (audio_chunks r) 0 false)) as [r' [E [A S]]];
          cbn [audio_chunks _stop_recording]; try assumption; try reflexivity.
        * rewrite Er. exact Hq.
        * exists r'. repeat split; assumption.
      + destruct (IH (mkRecording (audio_chunks r) (silence_samples r) false))
          as [r' [E [A S]]]; cbn [audio_chunks _stop_recording]; try assumption;
          try reflexivity.
        * rewrite Er. exact I.
        * exists r'. repeat split; assumption. }
  split; [apply H; assumption|].
  unfold record_audio.
  destruct (H (mkRecording [] 0 false)) as [r' [E _]];
    [reflexivity|cbn; unfold MAX_SAMPLES; lia|exact I|].
  rewrite E. reflexivity.
Qed.

(** A text without white space at its ends is left alone by [strip]. *)
Lemma strip_fixed s :
  (forall c r, s = c :: r -> isspace c = false) ->
  (forall c r, rev s = c :: r -> isspace c = false) ->
  strip s = s.
Proof.
  intros Hh Hl. unfold strip, rstrip.
  assert (E1 : lstrip s = s).
  { destruct s as [|c r]; [reflexivity|]. cbn [lstrip].
    rewrite (Hh c r eq_refl). reflexivity. }
  rewrite E1.
  assert (E2 : lstrip (rev s) = rev s).
  { destruct (rev s) as [|c r] eqn:E; [reflexivity|]. cbn [lstrip].
    rewrite (Hl c r eq_refl). reflexivity. }
  rewrite E2. apply rev_involutive.
Qed.

Lemma strip_idempotent s : strip (strip s) = strip s.
Proof.
  destruct (strip_spec s) as [_ [Hh Hl]]. apply strip_fixed; assumption.
Qed.

Lemma transcribe_text env audio v t v' :
  transcribe env audio v = Done (t, v') -> strip t = t.
Proof.
  unfold transcribe. destruct audio as [chunks|]; [|intros [= <- _]; reflexivity].
  destruct (total chunks =? 0); [intros [= <- _]; reflexivity|].
  destruct (_init_whisper env v) as [ok v1].
  destruct ok; cbn [negb]; [|intros [= <- _]; reflexivity].
  destruct (wav_written env); cbn [negb]; [|discriminate].
  destruct (recognised env) as [text|]; intros [= <- _];
    [apply strip_idempotent|reflexivity].
Qed.

Lemma voice_input_text env v t v' :
  snd (voice_input env v) = Done (Some t, v') -> strip t = t.
Proof.
  unfold voice_input.
  destruct (initialize env v) as [[[|] v1]| |]; cbn [snd]; try discriminate.
  destruct (record_audio (microphone env) (during_cue env)) as [cues [[audio|]| |]];
    cbn [snd]; try discriminate.
  destruct (transcribe env (Some audio) v1) as [[t1 v2]| |] eqn:E; try discriminate.
  intros [= <- _]. apply (transcribe_text _ _ _ _ _ E).
Qed.

Lemma lstrip_snoc l c : isspace c = false -> exists p, lstrip (l ++ [c]) = p ++ [c].
Proof.
  intros Hc. induction l as [|x l [p IH]].
  - exists []. cbn [app lstrip]. rewrite Hc. reflexivity.
  - cbn [app lstrip]. destruct (isspace x).
    + exists p. exact IH.
    + exists (x :: l). reflexivity.
Qed.

(** A text that begins with something else than white space keeps its first
    code point when it is stripped. *)
Lemma strip_head c r : isspace c = false -> exists r', strip (c :: r) = c :: r'.
Proof.
  intros Hc. unfold strip, rstrip. cbn [lstrip]. rewrite Hc. cbn [rev].
  destruct (lstrip_snoc (rev r) c Hc) as [p ->].
  rewrite rev_app_distr. eexists. reflexivity.
Qed.

(** X21. When [voice_input] returns or raises, the worker that called it
    ends the same way.  A transcript that is not empty is put in the input
    field and submitted: the prompt is what the field holds of it, which for
    a transcript of at most 32767 UTF-16 code units is the transcript
    exactly as it was returned (it carries no white space at its ends).
    Everything else -- a missing library, an exception, no audio, a model
    that cannot be loaded, a failed or empty transcription -- shows "didn't
    catch that" and submits nothing. *)
Theorem voice_input_is_dispatched env v result w :
  outcome_of (snd (voice_input env v)) = Some result ->
  let w' := ChatBubble._record_voice result w in
  match result with
  | Some (Some (c :: t)) =>
      let prompt := strip (ChatBubble.qstring_left ChatBubble.MAX_LENGTH (c :: t)) in
      ChatBubble.workers w' = ChatBubble.workers w ++ [ChatBubble.CallLlm prompt]
      /\ ChatBubble.response_label w' = MSG_THINKING
      /\ (ChatBubble.utf16_length (c :: t) <= ChatBubble.MAX_LENGTH -> prompt = c :: t)
  | _ =>
      ChatBubble.workers w' = ChatBubble.workers w
      /\ ChatBubble.response_label w' = MSG_NOT_HEARD
  end.
Proof.
  intros H. cbn zeta.
  destruct (snd (voice_input env v)) as [[text v']| |] eqn:E; cbn [outcome_of] in H;
    [| |discriminate H]; injection H as <-; [|split; reflexivity].
  destruct text as [[|c t]|]; [split; reflexivity| |split; reflexivity].
  apply voice_input_text in E.
  assert (Hc : isspace c = false)
    by (apply (proj1 (proj2 (strip_spec (c :: t))) c t E)).
  unfold ChatBubble._record_voice, ChatBubble._on_voice_text. cbn [truthy].
  unfold ChatBubble.send_message, ChatBubble.setText.
  cbn [ChatBubble.input_field ChatBubble.set_input].
  destruct (left_head c t) as [r Hr].
  destruct (strip_head c r Hc) as [r' Hs].
  rewrite Hr, Hs. cbn [truthy negb].
  split; [reflexivity|]. split; [reflexivity|].
  intros Hfit. rewrite <- Hs, <- Hr, (left_fits _ _ Hfit). exact E.
Qed.

(** X22. [initialize] succeeds as soon as the audio libraries can be
    imported, whether or not the offline speech engine could be started, and
    remembers it: every later call succeeds at once and changes nothing,
    even if the libraries could no longer be imported. *)
Theorem initialize_is_remembered p mic late wh wav rec v :
  exists v',
    initialize (mkEnv Imported p mic late wh wav rec) v = Done (true, v')
    /\ _initialized v' = true
    /\ forall env, initialize env v' = Done (true, v').
Proof.
  unfold initialize at 1. destruct (_initialized v) eqn:Hi.
  - exists v. split; [reflexivity|]. split; [exact Hi|].
    intros env. unfold initialize. rewrite Hi. reflexivity.
  - cbn [imports]. eexists. split; [reflexivity|]. split; [reflexivity|].
    intros env. reflexivity.
Qed.

End VoiceInputFacts.

(** ** Speech output, continued *)
Section SpeakFacts.
Import VoiceModule View.

Ltac pick :=
  match goal with
  | |- exists new, ?t ++ ?l = ?t ++ new /\ _ => exists l
  | |- exists new, ?t = ?t ++ new /\ _ => exists []; rewrite app_nil_r
  end.
Ltac finish :=
  split; [reflexivity|]; cbn [filter spoke length];
  split; [lia|]; split;
  [intros e Hin He; cbn [In] in Hin;
   repeat (destruct Hin as [<-|Hin]; [first [discriminate He | left; reflexivity | right; reflexivity]|]);
   destruct Hin|];
  split; [intros voice t Hin; cbn [In] in Hin;
   repeat (destruct Hin as [Hin|Hin]; [try discriminate Hin|]); try destruct Hin|];
  split; [intros; try reflexivity; try discriminate|split; reflexivity].

(** X23. One call of [speak] makes at most one engine speak, and what is
    spoken is the text given, by the edge voice of the module's language or
    by the offline engine; the edge engine is used only when the module is
    set to it; an empty text does nothing; and the settings of the module
    are left alone. *)
Theorem speak_uses_one_engine env text v :
  exists new,
    trace (speak env text v) = trace v ++ new
    /\ (length (filter spoke new) <= 1)%nat
    /\ (forall e, In e new -> spoke e = true ->
          e = EdgeSpoke (edge_voice (language v)) text \/ e = OfflineSpoke text)
    /\ (forall voice t, In (EdgeSpoke voice t) new -> tts_engine v = lit "edge")
    /\ (text = [] -> new = [])
    /\ language (speak env text v) = language v
    /\ tts_engine (speak env text v) = tts_engine v.
Proof.
  destruct v as [lang eng ready tr]. unfold speak. cbn [tts_engine].
  destruct text as [|c text]; cbn [truthy negb].
  - pick. finish.
  - destruct (eqb_str eng (lit "edge")) eqn:Heng.
    + apply eqb_str_eq in Heng. subst eng.
      unfold _speak_edge, _speak_offline, _init_offline_tts, log.
      destruct env as [[| |err|] init ok]; cbn [edge offline_init offline_say_ok
        trace pyttsx_engine language tts_engine];
        destruct ready; cbn [negb trace pyttsx_engine language tts_engine];
        try (destruct init; cbn [negb trace pyttsx_engine language tts_engine]);
        try (destruct ok; cbn [negb trace pyttsx_engine language tts_engine]);
        rewrite <- ?app_assoc; cbn [app]; pick; finish; reflexivity.
    + unfold _speak_offline, _init_offline_tts, log.
      destruct env as [r init ok]; cbn [edge offline_init offline_say_ok
        trace pyttsx_engine language tts_engine];
        destruct ready; cbn [negb trace pyttsx_engine language tts_engine];
        try (destruct init; cbn [negb trace pyttsx_engine language tts_engine]);
        try (destruct ok; cbn [negb trace pyttsx_engine language tts_engine]);
        rewrite <- ?app_assoc; cbn [app]; pick; finish.
Qed.

End SpeakFacts.

(** ** The further properties at concrete inputs *)
Section MoreExamples.
Import ChatBubble View Sample Cases.

Lemma confirming_is_reachable : reachable w_confirming.
Proof.
  unfold w_confirming. eapply reach_step; [apply reach_init|apply step_llm].
Defined.

Lemma mute_is_reachable : reachable (send_message (set_input (lit "hi") w_mute)).
Proof.
  eapply reach_step; [eapply reach_step; [apply reach_init|apply step_type]|].
  apply step_send.
Defined.

Lemma buttons_iff_pending_witness :
  (confirm_shown w_confirming = true
   <-> exists p, pending_code w_confirming = Some p /\ truthy p = true)
  /\ (confirm_shown w_confirming = false <-> pending_code w_confirming = None).
Proof. apply (buttons_iff_pending w_confirming). exact confirming_is_reachable. Defined.

Lemma confirm_request_witness :
  _on_confirm_execute exec_ok w0 = w0
  /\ requests (_on_confirm_execute exec_ok w_confirming)
     = requests w_confirming ++ [PostExecute (lit "python") (lit "print(1)")].
Proof.
  split.
  - apply (proj1 (confirm_request exec_ok w0 [])). reflexivity.
  - apply (proj2 (proj2 (confirm_request exec_ok w_confirming action) eq_refl eq_refl)).
Defined.

Lemma stale_action_survives_witness :
  pending_code (final (_call_llm env_chat (lit "thanks") w_confirming)) = Some action
  /\ confirm_shown (final (_call_llm env_chat (lit "thanks") w_confirming))
     = confirm_shown w_confirming
  /\ requests (_on_confirm_execute exec_ok
                 (final (_call_llm env_chat (lit "thanks") w_confirming)))
     = requests (final (_call_llm env_chat (lit "thanks") w_confirming))
       ++ [PostExecute (lit "python") (lit "print(1)")].
Proof.
  apply (stale_action_survives env_chat (lit "thanks") exec_ok w_confirming action
           (lit "python") (lit "print(1)")); reflexivity.
Defined.

Lemma submitted_prompt_is_stripped_witness :
  workers (send_message (set_input (lit "  hi ") w0)) = [CallLlm (lit "hi")]
  /\ input_field (send_message (set_input (lit "  hi ") w0)) = [].
Proof.
  destruct (submitted_prompt_is_stripped (set_input (lit "  hi ") w0) eq_refl)
    as [H1 [H2 _]].
  split; [exact H1|exact H2].
Defined.

Lemma stored_reply_is_cut_witness :
  load_history (disk (final (_call_llm env_chat (lit "hello") w0)))
  = turns_json [mkTurn stamp (lit "hello") (lit "hi")]
  /\ response_label (final (_call_llm env_chat (lit "hello") w0)) = lit "[Chat] hi"
  /\ load_history (disk (final (_call_llm env_lone (lit "hello") (set_disk fs_two w0))))
     = JArr []
  /\ response_label (final (_call_llm env_lone (lit "hello") (set_disk fs_two w0)))
     = lit "[Chat] " ++ reply_lone.
Proof.
  destruct (stored_reply_is_cut env_chat (lit "hello") w0 []
              (mkLocals (Some (lit "hi")) None (lit "chat")) (lit "hi")
              eq_refl eq_refl eq_refl eq_refl eq_refl) as [H1 [_ [_ H4]]].
  destruct (stored_reply_is_cut env_lone (lit "hello") (set_disk fs_two w0) two_turns
              (mkLocals (Some reply_lone) None (lit "chat")) reply_lone
              eq_refl eq_refl eq_refl eq_refl eq_refl) as [L1 [_ [_ L4]]].
  split; [exact H1|]. split; [apply H4; reflexivity|].
  split; [exact L1|apply L4; reflexivity].
Defined.

Lemma record_voice_ends_recording_witness :
  workers (_record_voice (Some (Some (lit "hello"))) w_listening)
  = workers w_listening ++ [CallLlm (lit "hello")]
  /\ is_recording (_record_voice (Some (Some (lit "hello"))) w_listening) = false
  /\ qstring_left MAX_LENGTH (heard (Some (Some (lit "hello")))) = lit "hello".
Proof.
  destruct (record_voice_ends_recording (Some (Some (lit "hello"))) w_listening)
    as [H1 [_ [_ [H4 [_ [_ H6]]]]]].
  split; [exact H4|]. split; [exact H1|].
  apply H6. vm_compute. discriminate.
Defined.

Lemma reply_independent_of_log_witness :
  ui_view (final (_call_llm env_chat (lit "hello") (set_disk fs_two w0)))
  = ui_view (final (_call_llm env_chat (lit "hello") (set_disk fs_locked w0))).
Proof.
  apply (reply_independent_of_log env_chat (lit "hello") w0 fs_two fs_locked
           (map turn_json two_turns) []); reflexivity.
Defined.

Lemma one_recording_worker_witness :
  workers (presses 3 w0) = [RecordVoice]
  /\ is_recording (presses 3 w0) = true
  /\ has_voice (presses 3 w0) = true
  /\ stop_requested (presses 3 w0) = true.
Proof. apply (one_recording_worker 2 w0); reflexivity. Defined.

Lemma silent_without_voice_witness :
  spoken (send_message (set_input (lit "hi") w_mute)) = []
  /\ is_recording (send_message (set_input (lit "hi") w_mute)) = false
  /\ voice_btn (send_message (set_input (lit "hi") w_mute)) = StyleIdle
  /\ ~ In RecordVoice (workers (send_message (set_input (lit "hi") w_mute))).
Proof.
  apply (silent_without_voice _ mute_is_reachable). reflexivity.
Defined.

Lemma bubble_placement_witness :
  (fst (IoPet.position_above_pet pet) + IoPet.BUBBLE_WIDTH + 10 <= 1920)%Z
  /\ (2 * fst (IoPet.position_above_pet pet) + IoPet.BUBBLE_WIDTH
      = 2 * 500 + IoPet.PET_SIZE)%Z
  /\ (snd (IoPet.position_above_pet pet) + 150 + 10 = 600)%Z.
Proof.
  destruct (bubble_placement pet) as [_ [H1 [_ [H2 H3]]]].
  split; [|split].
  - apply H1. vm_compute. discriminate.
  - apply H2. vm_compute. split; discriminate.
  - apply H3. vm_compute. discriminate.
Defined.

Lemma history_newest_first_witness :
  exists items,
    HistoryWindow._load_history fs_two = HistoryWindow.Listed items
    /\ items = rev (map HistoryWindow.turn_item two_turns)
    /\ length items = length two_turns
    /\ (forall older t, two_turns = older ++ [t] ->
          hd_error items = Some (HistoryWindow.turn_item t)).
Proof. apply (history_newest_first fs_two two_turns). reflexivity. Defined.

Lemma history_shows_last_run_witness :
  (exists older,
     HistoryWindow._load_history
       (disk (final (_call_llm env_chat (lit "hello") (set_disk fs_two w0))))
     = HistoryWindow.Listed
         (HistoryWindow.turn_item (mkTurn stamp (lit "hello") (slice_to 200 (lit "hi")))
          :: older)
     /\ (length older < HISTORY_CAP)%nat)
  /\ HistoryWindow._load_history
       (disk (final (_call_llm env_lone (lit "hello") (set_disk fs_two w0))))
     = HistoryWindow.Listed [].
Proof.
  split.
  - apply (proj1 (history_shows_last_run env_chat (lit "hello") (set_disk fs_two w0)
                    two_turns (mkLocals (Some (lit "hi")) None (lit "chat")) (lit "hi")
                    eq_refl eq_refl eq_refl eq_refl eq_refl)); reflexivity.
  - apply (proj2 (history_shows_last_run env_lone (lit "hello") (set_disk fs_two w0)
                    two_turns (mkLocals (Some reply_lone) None (lit "chat")) reply_lone
                    eq_refl eq_refl eq_refl eq_refl eq_refl)); reflexivity.
Defined.

Lemma clear_history_effect_witness :
  HistoryWindow._load_history (fst (HistoryWindow._clear_history fs_two))
  = HistoryWindow.Listed []
  /\ HistoryWindow._load_history (fst (HistoryWindow._clear_history fs_two_locked))
     = HistoryWindow.Listed (map HistoryWindow.turn_item (rev two_turns)).
Proof.
  split.
  - apply (proj2 (clear_history_effect fs_two two_turns eq_refl)).
  - apply (proj2 (clear_history_effect fs_two_locked two_turns eq_refl)).
Defined.

End MoreExamples.

Section VoiceExamples.
Import VoiceInput Cases.

Lemma manual_stop_ends_recording_witness :
  record_audio (StopPressed :: [StopPressed] ++ Tick [loud] :: [Tick [hush]]) [hush; hush]
  = ([StartBeep; StopBeep], Done (Some [loud; hush; hush])).
Proof.
  apply (proj2 (manual_stop_ends_recording [StopPressed] [loud] [Tick [hush]] [hush; hush]
                  (Forall_cons _ eq_refl (Forall_nil _)))).
Defined.


Lemma steady_audio_ends_recording_witness :
  exists why chunks,
    record_loop [Tick [mkChunk 480001 false]] (mkRecording [] 0 false)
    = Ended why chunks.
Proof.
  apply (steady_audio_ends_recording 480001 [Tick [mkChunk 480001 false]]).
  - apply Forall_cons; [|apply Forall_nil].
    exists [mkChunk 480001 false]. split; [reflexivity|]. vm_compute. discriminate.
  - vm_compute. reflexivity.
Defined.

Lemma silence_is_counted_per_wakeup_witness :
  record_loop [Tick [loud; loud; hush]] (mkRecording [] 22000 false)
  = Running (mkRecording ([] ++ delivered [Tick [loud; loud; hush]])
               (22000 + 1600 * N.of_nat 1) false)
  /\ record_loop ([Tick [loud; loud; hush]] ++ [Tick [hush]]) (mkRecording [] 22000 false)
     = Ended BySilence ([] ++ delivered ([Tick [loud; loud; hush]] ++ [Tick [hush]])).
Proof.
  assert (Q1 : quiet_tick 1600 (Tick [loud; loud; hush])).
  { exists [loud; loud], hush. repeat split. }
  assert (Q2 : quiet_tick 1600 (Tick [hush])).
  { exists [], hush. repeat split. }
  destruct (silence_is_counted_per_wakeup 1600 [Tick [loud; loud; hush]]
              (mkRecording [] 22000 false)
              (Forall_cons _ Q1 (Forall_nil _)) eq_refl) as [H1 H2].
  - vm_compute. discriminate.
  - vm_compute. reflexivity.
  - split; [exact H1|]. apply H2; [exact Q2|]. vm_compute. discriminate.
Defined.

Lemma stalled_stream_keeps_recording_witness :
  (exists r', record_loop (repeat (Tick []) 5) (mkRecording [loud] 0 false) = Running r'
              /\ audio_chunks r' = [loud] /\ _stop_recording r' = false)
  /\ record_audio (repeat (Tick []) 5) [hush] = ([StartBeep], Unfinished).
Proof.
  apply (stalled_stream_keeps_recording 5 (mkRecording [loud] 0 false) [hush]).
  - reflexivity.
  - vm_compute. discriminate.
  - reflexivity.
Defined.

Lemma voice_input_is_dispatched_witness :
  snd (voice_input voice_env voice0)
  = Done (Some (lit "hello"), mkState true true false false)
  /\ ChatBubble.workers
       (ChatBubble._record_voice (Some (Some (lit "hello"))) Sample.w_listening)
     = ChatBubble.workers Sample.w_listening ++ [ChatBubble.CallLlm (lit "hello")]
  /\ ChatBubble.response_label
       (ChatBubble._record_voice (Some (Some (lit "hello"))) Sample.w_listening)
     = MSG_THINKING.
Proof.
  split; [reflexivity|].
  destruct (voice_input_is_dispatched voice_env voice0 (Some (Some (lit "hello")))
              Sample.w_listening eq_refl) as [H1 [H2 H3]].
  cbn zeta in *. rewrite H3 in H1 by (vm_compute; discriminate).
  split; [exact H1|exact H2].
Defined.

End VoiceExamples.
